(** * goleveldb: session, recovery and compaction planning (leveldb/session.go)

    A shallow embedding of [session.go]: the session state, [recover],
    [commit], [pickCompaction] and the compaction job helpers [expand],
    [trivial] and [shouldStopBefore], followed by the properties the
    specification states about them.

    Conventions
    - Go's [uint64] and [int] are [Z]; unsigned additions wrap modulo 2^64.
    - A byte slice is [option (list byte)], [None] being the nil slice.
    - Fixed-size arrays ([kNumLevels]T) are lists indexed by [Z]; an index out
      of range is a run-time panic, which the embedding makes explicit.
    - [*version] is an address into a store of versions; the session and the
      compaction job hold addresses, not copies.
    - The code runs in a small state monad whose outcome is either a normal
      return or a panic.
    - Functions of the package that live in other files (the table helpers,
      the comparer, the manifest writer, the record codec, version staging)
      are parameters of the development. *)

From Stdlib Require Import ZArith Lia Bool.
From Stdlib Require Import Floats.SpecFloat.
From stdpp Require Import base option list strings.

Local Open Scope Z_scope.

(** ** Machine integers and slices *)

Definition add64 (a b : Z) : Z := (a + b) mod 2 ^ 64.

Definition bytes := list Byte.byte.

(** [[]byte]; [None] is the nil slice. *)
Definition byteSlice := option bytes.

(** [iKey] is a named [[]byte]. *)
Definition iKey := byteSlice.

Definition isNil (k : byteSlice) : bool :=
  match k with None => true | Some _ => false end.

(** [len(l)] as a Go [int]. *)
Definition len {A} (l : list A) : Z := Z.of_nat (length l).

(** [l[i]] on an array or slice; [None] stands for the index-out-of-range
    panic. *)
Definition index {A} (l : list A) (i : Z) : option A :=
  if (0 <=? i) then l !! Z.to_nat i else None.

(** [l[i] = x]; [None] stands for the index-out-of-range panic. *)
Definition store {A} (l : list A) (i : Z) (x : A) : option (list A) :=
  if (0 <=? i) && (i <? len l) then Some (<[Z.to_nat i := x]> l) else None.

(** ** float64, as far as the planner needs it *)

(** The IEEE value 1.0 (mantissa 2^52, exponent -52). *)
Definition float_one : spec_float := S754_finite false 4503599627370496 (-52).

(** [x >= 1] on float64; false on NaN. *)
Definition ge1 (x : spec_float) : bool := SFleb float_one x.

(** ** Errors *)

Inductive error :=
| ErrNotExist                 (* os.ErrNotExist *)
| ErrInvalid                  (* os.ErrInvalid *)
| EOF                         (* io.EOF *)
| errors_New (msg : string)   (* errors.New(msg) *)
| ErrManifest (Err : error)   (* ErrManifest{Err} *)
| ErrIO (code : Z).           (* any other error of a collaborator *)

(** [os.IsNotExist]: it does not look inside [ErrManifest]. *)
Definition os_IsNotExist (e : option error) : bool :=
  match e with Some ErrNotExist => true | _ => false end.

(** ** Tables, versions, records *)

(** [storage.FileType]; [TypeAll] is the union of the four kinds. *)
Inductive FileType := TypeManifest | TypeJournal | TypeTable | TypeTemp | TypeAll.

Record File := { fileType : FileType; fileNum : Z }.

Record tFile := {
  file : File;
  seekLeft : Z;
  size : Z;
  imin : iKey;
  imax : iKey
}.

Definition tFiles := list tFile.

Record tSet := { ts_level : Z; ts_table : tFile }.

Record version := {
  v_tables : list tFiles;       (* tables [kNumLevels]tFiles *)
  cLevel : Z;
  cScore : spec_float;
  cSeek : option tSet           (* unsafe.Pointer to a tSet, nil when unset *)
}.

(** Address of a version in the store. *)
Definition vptr := nat.

Inductive recField :=
  recComparer | recJournalNum | recNextNum | recSeq
| recCompactionPointer | recDeletedTable | recNewTable | recPrevJournalNum.

Global Instance recField_eq_dec : EqDecision recField.
Proof. solve_decision. Defined.

Record cpRecord := { cp_level : Z; cp_key : byteSlice }.
Record dtRecord := { dt_level : Z; dt_num : Z }.
Record ntRecord := { nt_level : Z; nt_num : Z; nt_size : Z; nt_min : iKey; nt_max : iKey }.

Record sessionRecord := {
  hasRec : list recField;
  comparer : string;
  journalNum : Z;
  prevJournalNum : Z;
  nextNum : Z;
  seq : Z;
  compactionPointers : list cpRecord;
  addedTables : list ntRecord;
  deletedTables : list dtRecord
}.

(** [&sessionRecord{}] *)
Definition emptyRecord : sessionRecord :=
  {| hasRec := []; comparer := String.EmptyString; journalNum := 0; prevJournalNum := 0;
     nextNum := 0; seq := 0; compactionPointers := []; addedTables := [];
     deletedTables := [] |}.

(** Modelled from the spec: [sessionRecord.has] is not in the source; decoding
    reports which fields were present, and [has] asks for one of them. *)
Definition has (rec : sessionRecord) (f : recField) : bool :=
  bool_decide (f ∈ hasRec rec).

(** Modelled from the spec: the three reset helpers of [sessionRecord] are not
    in the source; each empties the corresponding list of the record and keeps
    everything else, the presence flags included. *)
Definition resetCompactionPointers (rec : sessionRecord) : sessionRecord :=
  {| hasRec := hasRec rec; comparer := comparer rec; journalNum := journalNum rec;
     prevJournalNum := prevJournalNum rec; nextNum := nextNum rec; seq := seq rec;
     compactionPointers := []; addedTables := addedTables rec;
     deletedTables := deletedTables rec |}.

Definition resetAddedTables (rec : sessionRecord) : sessionRecord :=
  {| hasRec := hasRec rec; comparer := comparer rec; journalNum := journalNum rec;
     prevJournalNum := prevJournalNum rec; nextNum := nextNum rec; seq := seq rec;
     compactionPointers := compactionPointers rec; addedTables := [];
     deletedTables := deletedTables rec |}.

Definition resetDeletedTables (rec : sessionRecord) : sessionRecord :=
  {| hasRec := hasRec rec; comparer := comparer rec; journalNum := journalNum rec;
     prevJournalNum := prevJournalNum rec; nextNum := nextNum rec; seq := seq rec;
     compactionPointers := compactionPointers rec; addedTables := addedTables rec;
     deletedTables := [] |}.

(** ** Collaborators seen through their interfaces *)

(** [comparer.BasicComparer]: an interface, hence a record of methods. *)
Record BasicComparer := {
  Compare : byteSlice -> byteSlice -> Z;
  Name : string
}.

Record iComparer := { cmp : BasicComparer }.

(** The content of an opened file. *)
Definition Reader := bytes.

(** [storage.Storage], read-only for this file: what its methods answer. *)
Record Storage := {
  GetManifest : File + error;
  GetFiles : FileType -> list File * option error;
  Open : File -> Reader + error
}.

Inductive Strict := StrictManifest | StrictIterator | StrictOther.

Record Options := { GetStrict : Strict -> bool }.

(** ** The session *)

Record session := {
  stFileNum : Z;
  stJournalNum : Z;
  stPrevJournalNum : Z;
  stSeq : Z;
  stor : Storage;
  o : Options;
  s_cmp : iComparer;
  manifest : option Z;           (* *journal.Writer, an opaque handle *)
  manifestWriter : option Z;     (* storage.Writer, an opaque handle *)
  manifestFile : option File;
  stCPtrs : list iKey;           (* [kNumLevels]iKey *)
  stVersion : vptr
}.

(** The mutable world: the session and the store of versions it points into. *)
Record state := {
  sess : session;
  vers : list version
}.

(** ** Outcomes and the state monad *)

Inductive outcome (A : Type) :=
| Done (a : A) (st : state)
| Panic (msg : string) (st : state).
Arguments Done {A} a st.
Arguments Panic {A} msg st.

Definition M (A : Type) := state -> outcome A.

Global Instance M_ret : MRet M := fun A a st => Done a st.
Global Instance M_bind : MBind M := fun A B f m st =>
  match m st with
  | Done a st' => f a st'
  | Panic msg st' => Panic msg st'
  end.

Definition panic {A} (msg : string) : M A := fun st => Panic msg st.

Definition getSession : M session := fun st => Done (sess st) st.

Definition putSession (s : session) : M unit :=
  fun st => Done tt {| sess := s; vers := vers st |}.

(** Dereference of a [*version]. *)
Definition load (p : vptr) : M version := fun st =>
  match vers st !! p with
  | Some v => Done v st
  | None => Panic "invalid memory address or nil pointer dereference" st
  end.

(** Allocation of a fresh version ([&version{...}]). *)
Definition alloc (v : version) : M vptr := fun st =>
  Done (length (vers st)) {| sess := sess st; vers := vers st ++ [v] |}.

(** A checked array access. *)
Definition at_index {A} (l : list A) (i : Z) : M A :=
  match index l i with
  | Some x => mret x
  | None => panic "index out of range"
  end.

(** Modelled from the spec: [version_NB], [setVersion] and [setFileNum] are
    not in the source; the session holds the single mutable pointer to the
    current version, which [version_NB] reads and [setVersion] replaces, and
    [setFileNum] stores the file-number counter. *)
Definition version_NB : M vptr := fun st => Done (stVersion (sess st)) st.

Definition with_stVersion (s : session) (p : vptr) : session :=
  {| stFileNum := stFileNum s; stJournalNum := stJournalNum s;
     stPrevJournalNum := stPrevJournalNum s; stSeq := stSeq s; stor := stor s;
     o := o s; s_cmp := s_cmp s; manifest := manifest s;
     manifestWriter := manifestWriter s; manifestFile := manifestFile s;
     stCPtrs := stCPtrs s; stVersion := p |}.

Definition with_stFileNum (s : session) (n : Z) : session :=
  {| stFileNum := n; stJournalNum := stJournalNum s;
     stPrevJournalNum := stPrevJournalNum s; stSeq := stSeq s; stor := stor s;
     o := o s; s_cmp := s_cmp s; manifest := manifest s;
     manifestWriter := manifestWriter s; manifestFile := manifestFile s;
     stCPtrs := stCPtrs s; stVersion := stVersion s |}.

Definition with_stCPtrs (s : session) (cps : list iKey) : session :=
  {| stFileNum := stFileNum s; stJournalNum := stJournalNum s;
     stPrevJournalNum := stPrevJournalNum s; stSeq := stSeq s; stor := stor s;
     o := o s; s_cmp := s_cmp s; manifest := manifest s;
     manifestWriter := manifestWriter s; manifestFile := manifestFile s;
     stCPtrs := cps; stVersion := stVersion s |}.

Definition with_manifestFile (s : session) (f : File) : session :=
  {| stFileNum := stFileNum s; stJournalNum := stJournalNum s;
     stPrevJournalNum := stPrevJournalNum s; stSeq := stSeq s; stor := stor s;
     o := o s; s_cmp := s_cmp s; manifest := manifest s;
     manifestWriter := manifestWriter s; manifestFile := Some f;
     stCPtrs := stCPtrs s; stVersion := stVersion s |}.

Definition setVersion (p : vptr) : M unit :=
  s ← getSession; putSession (with_stVersion s p).

Definition setFileNum (n : Z) : M unit :=
  s ← getSession; putSession (with_stFileNum s n).

(** ** The compaction job *)

Record compaction := {
  c_version : vptr;
  c_level : Z;
  c_tables : tFiles * tFiles;    (* tables [2]tFiles *)
  gp : tFiles;
  gpidx : Z;
  seenKey : bool;
  overlappedBytes : Z;
  c_min : iKey;
  c_max : iKey;
  tPtrs : list Z
}.

(** [&compaction{s: s, version: v, level: level}]: every other field has its
    zero value. *)
Definition newCompaction (numLevels : Z) (v : vptr) (level : Z) : compaction :=
  {| c_version := v; c_level := level; c_tables := ([], []); gp := [];
     gpidx := 0; seenKey := false; overlappedBytes := 0; c_min := None;
     c_max := None; tPtrs := replicate (Z.to_nat numLevels) 0 |}.

Definition with_tables0 (c : compaction) (t0 : tFiles) : compaction :=
  {| c_version := c_version c; c_level := c_level c;
     c_tables := (t0, snd (c_tables c)); gp := gp c; gpidx := gpidx c;
     seenKey := seenKey c; overlappedBytes := overlappedBytes c;
     c_min := c_min c; c_max := c_max c; tPtrs := tPtrs c |}.

(** ** Reference instances of the parameters

    Small executable stand-ins for the helpers, constants and collaborators
    that the model takes as parameters, used to run the model on concrete
    inputs. Internal keys are a user key followed by eight bytes holding the
    sequence number and the operation type, little endian; user keys compare
    bytewise, equal user keys by descending sequence number. *)
Module Ref.

Definition kNumLevels : Z := 7.
Definition kMaxTableSize : Z := 2 * 1048576.
Definition kExpCompactionMaxBytes : Z := 25 * kMaxTableSize.
Definition kMaxGrandParentOverlapBytes : Z := 10 * kMaxTableSize.

Definition byteOf (z : Z) : Byte.byte :=
  default Byte.x00 (Byte.of_N (Z.to_N (z mod 256))).

Definition byteVal (b : Byte.byte) : Z := Z.of_N (Byte.to_N b).

Fixpoint bytesCompare (a b : bytes) : Z :=
  match a, b with
  | [], [] => 0
  | [], _ :: _ => -1
  | _ :: _, [] => 1
  | x :: a', y :: b' =>
      if byteVal x <? byteVal y then -1
      else if byteVal y <? byteVal x then 1
      else bytesCompare a' b'
  end.

Definition ucmp : BasicComparer :=
  {| Compare := fun a b => bytesCompare (default [] a) (default [] b);
     Name := "leveldb.BytewiseComparator" |}.

Definition icmp : iComparer := {| cmp := ucmp |}.

Definition ukey (k : iKey) : byteSlice :=
  match k with
  | Some b => Some (take (length b - 8)%nat b)
  | None => None
  end.

(** The packed sequence number and type of an internal key. *)
Definition keyNum (k : iKey) : Z :=
  match k with
  | Some b =>
      foldr (fun x acc => byteVal x + 256 * acc) 0 (drop (length b - 8)%nat b)
  | None => 0
  end.

Definition iCompare (ic : iComparer) (a b : iKey) : Z :=
  let r := Compare (cmp ic) (ukey a) (ukey b) in
  if r =? 0 then
    if keyNum b <? keyNum a then -1
    else if keyNum a <? keyNum b then 1 else 0
  else r.

(** The internal key of user key [u] at sequence number [sq] (type 1). *)
Definition mkKey (u : string) (sq : Z) : iKey :=
  Some (String.list_byte_of_string u
        ++ map (fun i => byteOf ((sq * 256 + 1) / 256 ^ i)) [0; 1; 2; 3; 4; 5; 6; 7]).

Definition getRange (tf : tFiles) (ic : iComparer) : iKey * iKey :=
  match tf with
  | [] => (None, None)
  | t :: tf' =>
      fold_left
        (fun (acc : iKey * iKey) t =>
           (if iCompare ic (imin t) (fst acc) <? 0 then imin t else fst acc,
            if 0 <? iCompare ic (imax t) (snd acc) then imax t else snd acc))
        tf' (imin t, imax t)
  end.

Definition isOverlaps (t : tFile) (min max : byteSlice) (uc : BasicComparer) : bool :=
  negb ((negb (isNil min) && (Compare uc (ukey (imax t)) min <? 0))
        || (negb (isNil max) && (0 <? Compare uc (ukey (imin t)) max))).

(** Files of [tf] overlapping [min, max], appended to [dst]; when the files
    may overlap each other ([disjSorted = false]) a file that widens the
    range restarts the scan with the wider range and an empty result. *)
Fixpoint overlapScan (fuel : nat) (tf : tFiles) (min max : byteSlice)
    (dst : tFiles) (disjSorted : bool) (uc : BasicComparer) : tFiles :=
  (fix go (rest : tFiles) (r : tFiles) : tFiles :=
     match rest with
     | [] => r
     | t :: rest' =>
         if negb (isOverlaps t min max uc) then go rest' r
         else if disjSorted then go rest' (r ++ [t])
         else if negb (isNil min) && (Compare uc (ukey (imin t)) min <? 0) then
           match fuel with
           | O => r ++ [t]
           | S fuel' => overlapScan fuel' tf (ukey (imin t)) max [] disjSorted uc
           end
         else if negb (isNil max) && (0 <? Compare uc (ukey (imax t)) max) then
           match fuel with
           | O => r ++ [t]
           | S fuel' => overlapScan fuel' tf min (ukey (imax t)) [] disjSorted uc
           end
         else go rest' (r ++ [t])
     end) tf dst.

Definition getOverlaps (tf : tFiles) (min max : byteSlice) (dst : tFiles)
    (disjSorted : bool) (uc : BasicComparer) : tFiles :=
  overlapScan (2 * length tf) tf min max dst disjSorted uc.

Definition tFiles_size (tf : tFiles) : Z :=
  fold_left (fun sum t => add64 sum (size t)) tf 0.

(** A table file numbered [n] of [sz] bytes covering user keys [lo..hi]. *)
Definition mkFile (n : Z) (lo hi : string) (sz : Z) : tFile :=
  {| file := {| fileType := TypeTable; fileNum := n |}; seekLeft := 100;
     size := sz; imin := mkKey lo 9; imax := mkKey hi 1 |}.

(** [spawn]: the record's additions appended to their levels, the score
    kept. *)
Definition addTable (tabs : list tFiles) (nt : ntRecord) : list tFiles :=
  match index tabs (nt_level nt) with
  | Some lv =>
      let t := {| file := {| fileType := TypeTable; fileNum := nt_num nt |};
                  seekLeft := 100; size := nt_size nt;
                  imin := nt_min nt; imax := nt_max nt |} in
      <[Z.to_nat (nt_level nt) := lv ++ [t]]> tabs
  | None => tabs
  end.

Definition spawn (v : version) (r : sessionRecord) : version :=
  {| v_tables := fold_left addTable (addedTables r) (v_tables v);
     cLevel := cLevel v; cScore := cScore v; cSeek := None |}.

Definition with_manifest (s : session) (w : option Z) (f : option File) (n : Z) : session :=
  {| stFileNum := n; stJournalNum := stJournalNum s;
     stPrevJournalNum := stPrevJournalNum s; stSeq := stSeq s; stor := stor s;
     o := o s; s_cmp := s_cmp s; manifest := w; manifestWriter := w;
     manifestFile := f; stCPtrs := stCPtrs s; stVersion := stVersion s |}.

(** [newManifest]: takes the next file number for the manifest; creating
    the file fails when that number is negative. *)
Definition newManifest (r : option sessionRecord) (v : option vptr) (st : state)
    : option error * state :=
  let s := sess st in
  if stFileNum s <? 0 then (Some (ErrIO 1), st)
  else (None,
        {| sess := with_manifest s (Some (stFileNum s))
                     (Some {| fileType := TypeManifest; fileNum := stFileNum s |})
                     (stFileNum s + 1);
           vers := vers st |}).

(** [flushManifest]: the append fails on a writer whose handle is negative
    (a closed writer). *)
Definition flushManifest (r : sessionRecord) (st : state) : option error * state :=
  match manifest (sess st) with
  | Some h => if h <? 0 then (Some (ErrIO 2), st) else (None, st)
  | None => (Some ErrInvalid, st)
  end.

(** The journal: each record is one length byte followed by that many
    payload bytes; a truncated record is an error under strict reading and
    is dropped otherwise. *)
Fixpoint frames (fuel : nat) (strict : bool) (b : bytes) : list (bytes + error) :=
  match fuel, b with
  | S fuel', n :: rest =>
      let k := Z.to_nat (byteVal n) in
      if (length rest <? k)%nat then
        if strict then [inr (ErrIO 3)] else []
      else inl (take k rest) :: frames fuel' strict (drop k rest)
  | _, _ => []
  end.

Definition journal_NewReader (r : Reader) (strict checksum : bool)
    : list (bytes + error) :=
  frames (length r) strict r.

Definition corrupted : error := errors_New "leveldb: corrupted manifest".

Definition setComparer (rec : sessionRecord) (name : string) : sessionRecord :=
  {| hasRec := recComparer :: hasRec rec; comparer := name;
     journalNum := journalNum rec; prevJournalNum := prevJournalNum rec;
     nextNum := nextNum rec; seq := seq rec;
     compactionPointers := compactionPointers rec;
     addedTables := addedTables rec; deletedTables := deletedTables rec |}.

Definition setJournalNum (rec : sessionRecord) (n : Z) : sessionRecord :=
  {| hasRec := recJournalNum :: hasRec rec; comparer := comparer rec;
     journalNum := n; prevJournalNum := prevJournalNum rec;
     nextNum := nextNum rec; seq := seq rec;
     compactionPointers := compactionPointers rec;
     addedTables := addedTables rec; deletedTables := deletedTables rec |}.

Definition setNextNum (rec : sessionRecord) (n : Z) : sessionRecord :=
  {| hasRec := recNextNum :: hasRec rec; comparer := comparer rec;
     journalNum := journalNum rec; prevJournalNum := prevJournalNum rec;
     nextNum := n; seq := seq rec;
     compactionPointers := compactionPointers rec;
     addedTables := addedTables rec; deletedTables := deletedTables rec |}.

Definition setSeq (rec : sessionRecord) (n : Z) : sessionRecord :=
  {| hasRec := recSeq :: hasRec rec; comparer := comparer rec;
     journalNum := journalNum rec; prevJournalNum := prevJournalNum rec;
     nextNum := nextNum rec; seq := n;
     compactionPointers := compactionPointers rec;
     addedTables := addedTables rec; deletedTables := deletedTables rec |}.

Definition addCompactionPointer (rec : sessionRecord) (level : Z) (key : bytes)
    : sessionRecord :=
  {| hasRec := recCompactionPointer :: hasRec rec; comparer := comparer rec;
     journalNum := journalNum rec; prevJournalNum := prevJournalNum rec;
     nextNum := nextNum rec; seq := seq rec;
     compactionPointers :=
       compactionPointers rec ++ [ {| cp_level := level; cp_key := Some key |} ];
     addedTables := addedTables rec; deletedTables := deletedTables rec |}.

(** The record codec on small values: a tag byte, then the field; tag 1 is
    the comparer name (length, bytes), 2 the journal number, 3 the next file
    number, 4 the sequence number, 5 a compaction pointer (level, length,
    key). Anything else is a corrupted record. *)
Fixpoint decodeFields (fuel : nat) (rec : sessionRecord) (b : bytes)
    : sessionRecord * option error :=
  match fuel, b with
  | _, [] => (rec, None)
  | O, _ => (rec, Some corrupted)
  | S fuel', tag :: rest =>
      let t := byteVal tag in
      if t =? 1 then
        match rest with
        | n :: rest' =>
            let k := Z.to_nat (byteVal n) in
            if (length rest' <? k)%nat then (rec, Some corrupted)
            else decodeFields fuel'
                   (setComparer rec (String.string_of_list_byte (take k rest')))
                   (drop k rest')
        | [] => (rec, Some corrupted)
        end
      else if (t =? 2) || (t =? 3) || (t =? 4) then
        match rest with
        | n :: rest' =>
            decodeFields fuel'
              (if t =? 2 then setJournalNum rec (byteVal n)
               else if t =? 3 then setNextNum rec (byteVal n)
               else setSeq rec (byteVal n))
              rest'
        | [] => (rec, Some corrupted)
        end
      else if t =? 5 then
        match rest with
        | lv :: n :: rest' =>
            let k := Z.to_nat (byteVal n) in
            if (length rest' <? k)%nat then (rec, Some corrupted)
            else decodeFields fuel'
                   (addCompactionPointer rec (byteVal lv) (take k rest'))
                   (drop k rest')
        | _ => (rec, Some corrupted)
        end
      else (rec, Some corrupted)
  end.

Definition decode (rec : sessionRecord) (b : bytes) : sessionRecord * option error :=
  decodeFields (length b) rec b.

(** Version staging: the base version and the records committed so far. *)
Definition versionStaging : Type := vptr * list sessionRecord.

Definition newStaging (p : vptr) : versionStaging := (p, []).

Definition staging_commit (sg : versionStaging) (r : sessionRecord) : versionStaging :=
  (fst sg, snd sg ++ [r]).

Definition staging_finish (sg : versionStaging) : M vptr :=
  v ← load (fst sg);
  alloc (fold_left spawn (snd sg) v).

Definition recordCommited (r : sessionRecord) (s : session) : session :=
  {| stFileNum := stFileNum s;
     stJournalNum := if has r recJournalNum then journalNum r else stJournalNum s;
     stPrevJournalNum :=
       if has r recPrevJournalNum then prevJournalNum r else stPrevJournalNum s;
     stSeq := if has r recSeq then seq r else stSeq s;
     stor := stor s; o := o s; s_cmp := s_cmp s; manifest := manifest s;
     manifestWriter := manifestWriter s; manifestFile := manifestFile s;
     stCPtrs :=
       fold_left (fun a rp => <[Z.to_nat (cp_level rp) := cp_key rp]> a)
         (compactionPointers r) (stCPtrs s);
     stVersion := stVersion s |}.

(** *** Example data *)

Definition score (z : Z) : spec_float :=
  match z with
  | Zpos p => S754_finite false (p * 4503599627370496) (-52)
  | _ => S754_zero false
  end.

Definition fileA : tFile := mkFile 11 "a" "f" 1000.
Definition fileB : tFile := mkFile 12 "g" "m" 1000.
Definition fileC : tFile := mkFile 13 "n" "z" 1000.
Definition fileP : tFile := mkFile 21 "e" "h" 5000.
Definition fileG : tFile := mkFile 31 "a" "k" 4000.

(** Level 1 holds [a,f], [g,m], [n,z]; level 2 holds [e,h]; level 3 holds
    [a,k]. *)
Definition tables1 : list tFiles :=
  [ []; [fileA; fileB; fileC]; [fileP]; [fileG]; []; []; [] ].

Definition emptyStorage : Storage :=
  {| GetManifest := inr ErrNotExist;
     GetFiles := fun _ => ([], None);
     Open := fun _ => inr ErrNotExist |}.

Definition lenient : Options := {| GetStrict := fun _ => false |}.

Definition mkSession (sto : Storage) (cps : list iKey) (w : option Z) : session :=
  {| stFileNum := 40; stJournalNum := 3; stPrevJournalNum := 0; stSeq := 7;
     stor := sto; o := lenient; s_cmp := icmp; manifest := w;
     manifestWriter := w; manifestFile := None; stCPtrs := cps;
     stVersion := 0%nat |}.

Definition noPointers : list iKey := replicate 7 None.

(** A state whose current version has the given tables, candidate level,
    score and hint, and whose level-1 compaction pointer is [cp]. *)
Definition mkState (tabs : list tFiles) (level : Z) (sc : spec_float)
    (hint : option tSet) (cp : iKey) (w : option Z) : state :=
  {| sess := mkSession emptyStorage (<[1%nat := cp]> noPointers) w;
     vers := [ {| v_tables := tabs; cLevel := level; cScore := sc;
                  cSeek := hint |} ] |}.

(** A storage without manifest that still holds table file 5. *)
Definition orphanStorage : Storage :=
  {| GetManifest := inr ErrNotExist;
     GetFiles := fun _ => ([ {| fileType := TypeTable; fileNum := 5 |} ], None);
     Open := fun _ => inr ErrNotExist |}.

(** A manifest of two records: a compaction pointer for level 1 at key
    ["k"], then the next file number 9; no comparer name anywhere. *)
Definition manifestBytes : bytes :=
  map byteOf [4; 5; 1; 1; 107; 2; 3; 9].

Definition manifestStorage : Storage :=
  {| GetManifest := inl {| fileType := TypeManifest; fileNum := 2 |};
     GetFiles := fun _ => ([ {| fileType := TypeManifest; fileNum := 2 |} ], None);
     Open := fun _ => inl manifestBytes |}.

Definition stateOn (sto : Storage) : state :=
  {| sess := mkSession sto noPointers None;
     vers := [ {| v_tables := replicate 7 []; cLevel := 0; cScore := score 0;
                  cSeek := None |} ] |}.

(** *** Instances for the iterators, the lock and the options *)

(** Iterators as the record of how they were built: a table iterator by
    its file number, an indexed iterator by the file numbers of its set, a
    merged iterator by the number of its children. *)
Inductive iter :=
| TableIter (num : Z) (fill : bool)
| IndexIter (nums : list Z) (fill : bool)
| Indexed (nums : list Z) (fill strict : bool)
| Merged (children : Z).

Definition tops_newIterator (t : tFile) (fill : bool) : iter :=
  TableIter (fileNum (file t)) fill.

Definition newIndexIterator (tt : tFiles) (ic : iComparer) (fill : bool) : iter :=
  IndexIter (map (fun t => fileNum (file t)) tt) fill.

Definition NewIndexedIterator (i : iter) (strict slice : bool) : iter :=
  match i with
  | IndexIter nums fill => Indexed nums fill strict
  | _ => i
  end.

Definition NewMergedIterator (its : list iter) (ic : iComparer) (strict : bool) : iter :=
  Merged (len its).

Definition stor_Lock (sto : Storage) : Z + error := inl 1.

Definition setOptions (opts : Options) : Options * iComparer := (opts, icmp).

(** A manifest of one record naming the bytewise comparer, journal number 3,
    next file number 9 and sequence number 7. *)
Definition goodManifestBytes : bytes :=
  map byteOf ([34; 1; 26]
              ++ map byteVal (String.list_byte_of_string "leveldb.BytewiseComparator")
              ++ [2; 3; 3; 9; 4; 7]).

(** A manifest whose only record moves the compaction pointer of level 9. *)
Definition badLevelManifestBytes : bytes := map byteOf [4; 5; 9; 1; 107].

Definition storageWith (content : bytes) : Storage :=
  {| GetManifest := inl {| fileType := TypeManifest; fileNum := 2 |};
     GetFiles := fun _ => ([ {| fileType := TypeManifest; fileNum := 2 |} ], None);
     Open := fun _ => inl content |}.

(** A job at level 1 on [tables1], before [expand], and after it. *)
Definition job1 : compaction :=
  {| c_version := 0%nat; c_level := 1; c_tables := ([fileA], []); gp := [];
     gpidx := 0; seenKey := false; overlappedBytes := 0; c_min := None;
     c_max := None; tPtrs := replicate 7 0 |}.

End Ref.

Section Model.

(** Constants of the package (config.go). *)
Variable kNumLevels : Z.
Variable kExpCompactionMaxBytes : Z.
Variable kMaxGrandParentOverlapBytes : Z.

(** Helpers of the package that are not in session.go. *)
Variable iCompare : iComparer -> iKey -> iKey -> Z.       (* icmp.Compare *)
Variable ukey : iKey -> byteSlice.                          (* iKey.ukey *)
Variable getRange : tFiles -> iComparer -> iKey * iKey.     (* tFiles.getRange *)
Variable getOverlaps :                                     (* tFiles.getOverlaps *)
  tFiles -> byteSlice -> byteSlice -> tFiles -> bool -> BasicComparer -> tFiles.
Variable tFiles_size : tFiles -> Z.                         (* tFiles.size *)

(** *** trivial *)

Definition trivial (c : compaction) : bool :=
  (len (fst (c_tables c)) =? 1) && (len (snd (c_tables c)) =? 0)
  && (tFiles_size (gp c) <=? kMaxGrandParentOverlapBytes).

(** *** shouldStopBefore *)

(** The [for] loop, run over the grandparent files from the cursor on
    ([rest] is [c.gp[c.gpidx:]]): the loop ends when the cursor reaches the
    end or at the first file whose largest key is not below [key]. It
    returns the new cursor and counter. *)
Fixpoint stopLoop (icmp : iComparer) (key : iKey) (seen : bool)
    (rest : tFiles) (idx ob : Z) : Z * Z :=
  match rest with
  | [] => (idx, ob)
  | g :: rest' =>
      if iCompare icmp key (imax g) <=? 0 then (idx, ob)
      else stopLoop icmp key seen rest' (idx + 1)
             (if seen then add64 ob (size g) else ob)
  end.

(** [c.gp[c.gpidx]] at a negative cursor is an index panic. The job is
    returned with its cursor, flag and counter updated. *)
Definition shouldStopBefore (key : iKey) (c : compaction) : M (bool * compaction) :=
  s ← getSession;
  let icmp := s_cmp s in
  if gpidx c <? 0 then panic "index out of range"
  else
    let '(idx, ob) :=
      stopLoop icmp key (seenKey c) (drop (Z.to_nat (gpidx c)) (gp c))
        (gpidx c) (overlappedBytes c) in
    let cut := kMaxGrandParentOverlapBytes <? ob in
    mret (cut,
          {| c_version := c_version c; c_level := c_level c;
             c_tables := c_tables c; gp := gp c; gpidx := idx;
             seenKey := true;
             overlappedBytes := if cut then 0 else ob;
             c_min := c_min c; c_max := c_max c; tPtrs := tPtrs c |}).

(** [shouldStopBefore] called on each key of [keys] in turn, as the
    compaction writer does; the answers, in order, and the job at the end. *)
Fixpoint feed (keys : list iKey) (c : compaction) : M (list bool * compaction) :=
  match keys with
  | [] => mret ([], c)
  | key :: keys' =>
      r ← shouldStopBefore key c;
      r' ← feed keys' (snd r);
      mret (fst r :: fst r', snd r')
  end.

(** *** expand *)

(** The two input sets and the ranges after the optional growth step, from
    the level-L set [t0] and the parent set [t1] already gathered:
    [(min, max, t0, t1, amin, amax)]. *)
Definition grow (icmp : iComparer) (level : Z) (vt0 vt1 t0 t1 : tFiles)
    (min max amin amax : iKey)
    : iKey * iKey * tFiles * tFiles * iKey * iKey :=
  let ucmp := cmp icmp in
  if 0 <? len t1 then
    let exp0 :=
      getOverlaps vt0 (ukey amin) (ukey amax) [] (negb (level =? 0)) ucmp in
    if (len t0 <? len exp0)
       && (add64 (tFiles_size t1) (tFiles_size exp0) <? kExpCompactionMaxBytes)
    then
      let '(xmin, xmax) := getRange exp0 icmp in
      let exp1 := getOverlaps vt1 (ukey xmin) (ukey xmax) [] true ucmp in
      if len exp1 =? len t1 then
        let '(amin', amax') := getRange (exp0 ++ exp1) icmp in
        (xmin, xmax, exp0, exp1, amin', amax')
      else (min, max, t0, t1, amin, amax)
    else (min, max, t0, t1, amin, amax)
  else (min, max, t0, t1, amin, amax).

Definition expand (c : compaction) : M compaction :=
  s ← getSession;
  v ← load (c_version c);
  let icmp := s_cmp s in
  let ucmp := cmp icmp in
  let level := c_level c in
  vt0 ← at_index (v_tables v) level;
  vt1 ← at_index (v_tables v) (level + 1);
  let '(t0, t1) := c_tables c in
  let '(min, max) := getRange t0 icmp in
  let t1 := getOverlaps vt1 (ukey min) (ukey max) t1 true ucmp in
  let '(amin, amax) := getRange (t0 ++ t1) icmp in
  let '(min, max, t0, t1, amin, amax) :=
    grow icmp level vt0 vt1 t0 t1 min max amin amax in
  gp' ← (if level + 2 <? kNumLevels then
           vt2 ← at_index (v_tables v) (level + 2);
           mret (getOverlaps vt2 (ukey amin) (ukey amax) (gp c) true ucmp)
         else mret (gp c));
  mret {| c_version := c_version c; c_level := c_level c;
          c_tables := (t0, t1); gp := gp'; gpidx := gpidx c;
          seenKey := seenKey c; overlappedBytes := overlappedBytes c;
          c_min := min; c_max := max; tPtrs := tPtrs c |}.

(** *** pickCompaction *)

(** The [for _, t := range tt] loop: the first file whose largest key is
    above the compaction pointer, or any first file when the pointer is
    nil; empty when no file qualifies. *)
Fixpoint firstAfter (icmp : iComparer) (cp : iKey) (tt : tFiles) : tFiles :=
  match tt with
  | [] => []
  | t :: tt' =>
      if isNil cp || (0 <? iCompare icmp (imax t) cp) then [t]
      else firstAfter icmp cp tt'
  end.

(** The first half of [pickCompaction]: the level and the initial input
    [t0], or [None] when there is nothing to do. *)
Definition pickInput : M (option (vptr * Z * tFiles)) :=
  s ← getSession;
  let icmp := s_cmp s in
  p ← version_NB;
  v ← load p;
  if ge1 (cScore v) then
    let level := cLevel v in
    cp ← at_index (stCPtrs s) level;
    tt ← at_index (v_tables v) level;
    let t0 := firstAfter icmp cp tt in
    if len t0 =? 0 then
      t ← at_index tt 0;
      mret (Some (p, level, [t]))
    else mret (Some (p, level, t0))
  else
    match cSeek v with
    | Some ts => mret (Some (p, ts_level ts, [ts_table ts]))
    | None => mret None
    end.

(** The second half: build the job, widen a level-0 input to every
    overlapping level-0 file, and expand. *)
Definition buildCompaction (p : vptr) (level : Z) (t0 : tFiles) : M compaction :=
  s ← getSession;
  let icmp := s_cmp s in
  let ucmp := cmp icmp in
  v ← load p;
  let c := newCompaction kNumLevels p level in
  t0 ← (if level =? 0 then
          let '(min, max) := getRange t0 icmp in
          vt ← at_index (v_tables v) 0;
          mret (getOverlaps vt (ukey min) (ukey max) [] false ucmp)
        else mret t0);
  expand (with_tables0 c t0).

Definition pickCompaction : M (option compaction) :=
  sel ← pickInput;
  match sel with
  | None => mret None
  | Some (p, level, t0) => c ← buildCompaction p level t0; mret (Some c)
  end.

(** *** commit *)

(** Parts of the package that are not in session.go. [spawn] gives the
    content of the version derived from a base version and a record; the
    two manifest operations write the manifest and answer with an error or
    nil. *)
Variable spawn : version -> sessionRecord -> version.
Variable newManifest :
  option sessionRecord -> option vptr -> state -> option error * state.
Variable flushManifest : sessionRecord -> state -> option error * state.

(** The manifest operations write the manifest and may move the session's
    counters and manifest handles; they leave the current-version pointer
    and the store of versions alone. *)
Hypothesis newManifest_frame : forall r v st,
  stVersion (sess (snd (newManifest r v st))) = stVersion (sess st)
  /\ vers (snd (newManifest r v st)) = vers st.
Hypothesis flushManifest_frame : forall r st,
  stVersion (sess (snd (flushManifest r st))) = stVersion (sess st)
  /\ vers (snd (flushManifest r st)) = vers st.

Definition call {A} (f : state -> A * state) : M A :=
  fun st => let '(a, st') := f st in Done a st'.

(** [s.version_NB().spawn(r)]: the derived version is a new object. *)
Definition spawnVersion (r : sessionRecord) : M vptr :=
  p ← version_NB;
  v ← load p;
  alloc (spawn v r).

Definition create : M (option error) := call (newManifest None None).

Definition commit (r : sessionRecord) : M (option error) :=
  nv ← spawnVersion r;
  s ← getSession;
  err ← (match manifest s with
         | None => call (newManifest (Some r) (Some nv))
         | Some _ => call (flushManifest r)
         end);
  match err with
  | None => _ ← setVersion nv; mret err
  | Some _ => mret err
  end.

(** *** recover *)

Variable versionStaging : Type.
Variable newStaging : vptr -> versionStaging.
Variable staging_commit : versionStaging -> sessionRecord -> versionStaging.
Variable staging_finish : versionStaging -> M vptr.
(** [journal.NewReader(reader, dropper, strict, checksum)]: the successive
    answers of [Next], record payloads or errors; past the end of the list
    [Next] answers [io.EOF]. *)
Variable journal_NewReader : Reader -> bool -> bool -> list (bytes + error).
Variable decode : sessionRecord -> bytes -> sessionRecord * option error.
Variable recordCommited : sessionRecord -> session -> session.

(** [for _, rp := range rec.compactionPointers { s.stCPtrs[rp.level] = iKey(rp.key) }] *)
Fixpoint savePointers (cps : list cpRecord) : M unit :=
  match cps with
  | [] => mret tt
  | rp :: cps' =>
      s ← getSession;
      match store (stCPtrs s) (cp_level rp) (cp_key rp) with
      | Some a => _ ← putSession (with_stCPtrs s a); savePointers cps'
      | None => panic "index out of range"
      end
  end.

Definition resetAll (rec : sessionRecord) : sessionRecord :=
  resetDeletedTables (resetAddedTables (resetCompactionPointers rec)).

(** The replay loop. [inl e]: [recover] returns [e] from inside the loop;
    [inr (staging, rec)]: the loop ended at end of stream. The log line of
    a skipped record ([s.logf]) touches no state and is left out. *)
Fixpoint replay (strict : bool) (jr : list (bytes + error))
    (staging : versionStaging) (rec : sessionRecord)
    : M (error + versionStaging * sessionRecord) :=
  match jr with
  | [] => mret (inr (staging, rec))
  | inr EOF :: _ => mret (inr (staging, rec))
  | inr e :: _ => mret (inl e)
  | inl r :: jr' =>
      let '(rec, err) := decode rec r in
      match err with
      | None =>
          _ ← savePointers (compactionPointers rec);
          replay strict jr' (staging_commit staging rec) (resetAll rec)
      | Some e =>
          if strict then mret (inl (ErrManifest e))
          else replay strict jr' staging (resetAll rec)
      end
  end.

(** The [switch] after the loop. *)
Definition validate (rec : sessionRecord) (name : string) : option error :=
  if negb (has rec recComparer) then
    Some (ErrManifest (errors_New "leveldb: manifest missing comparer name"))
  else if negb (bool_decide (comparer rec = name)) then
    Some (ErrManifest (errors_New
      ("leveldb: comparer mismatch, " +:+ "want '" +:+ name +:+ "', "
       +:+ "got '" +:+ comparer rec +:+ "'")))
  else if negb (has rec recNextNum) then
    Some (ErrManifest (errors_New "leveldb: manifest missing next file number"))
  else if negb (has rec recJournalNum) then
    Some (ErrManifest (errors_New "leveldb: manifest missing journal file number"))
  else if negb (has rec recSeq) then
    Some (ErrManifest (errors_New "leveldb: manifest missing seq number"))
  else None.

(** The body of [recover]; its value is the named result [err] at the
    moment the function returns. The deferred [reader.Close()] touches no
    state of the session and is left out. *)
Definition recoverBody : M (option error) :=
  s ← getSession;
  match GetManifest (stor s) with
  | inr e => mret (Some e)
  | inl file =>
      match Open (stor s) file with
      | inr e => mret (Some e)
      | inl reader =>
          let strict := GetStrict (o s) StrictManifest in
          let jr := journal_NewReader reader strict true in
          p ← version_NB;
          r ← replay strict jr (newStaging p) emptyRecord;
          match r with
          | inl e => mret (Some e)
          | inr (staging, rec) =>
              s ← getSession;
              match validate rec (Name (cmp (s_cmp s))) with
              | Some e => mret (Some e)
              | None =>
                  _ ← putSession (with_manifestFile s file);
                  nv ← staging_finish staging;
                  _ ← setVersion nv;
                  _ ← setFileNum (nextNum rec);
                  s ← getSession;
                  _ ← putSession (recordCommited rec s);
                  mret None
              end
          end
      end
  end.

(** The deferred function, run on the result of the body. *)
Definition recover : M (option error) :=
  err ← recoverBody;
  if os_IsNotExist err then
    s ← getSession;
    let '(files, _) := GetFiles (stor s) TypeAll in
    if 0 <? len files then
      mret (Some (ErrManifest (errors_New "leveldb: manifest file missing")))
    else mret err
  else mret err.

(** *** getCompactionRange *)

Definition getCompactionRange (level : Z) (min max : byteSlice)
    : M (option compaction) :=
  s ← getSession;
  p ← version_NB;
  v ← load p;
  vt ← at_index (v_tables v) level;
  let t0 := getOverlaps vt min max [] (negb (level =? 0)) (cmp (s_cmp s)) in
  if len t0 =? 0 then mret None
  else
    c ← expand (with_tables0 (newCompaction kNumLevels p level) t0);
    mret (Some c).

(** *** isBaseLevelForKey *)

(** The inner [for] loop on one level, run over the files from the cursor
    on: [(true, ptr)] when the file at the cursor holds [key] in its range
    (the function returns false there), [(false, ptr)] when the loop ends. *)
Fixpoint baseScan (ucmp : BasicComparer) (key : byteSlice) (rest : tFiles)
    (ptr : Z) : bool * Z :=
  match rest with
  | [] => (false, ptr)
  | t :: rest' =>
      if Compare ucmp key (ukey (imax t)) <=? 0 then
        if 0 <=? Compare ucmp key (ukey (imin t)) then (true, ptr)
        else (false, ptr)
      else baseScan ucmp key rest' (ptr + 1)
  end.

(** The outer loop over [v.tables[c.level+2:]]; [i] is the index the range
    loop hands out, which is also the index into [c.tPtrs]. [None] is an
    index panic ([c.tPtrs[level]], or [tt[...]] at a negative cursor). *)
Fixpoint baseLevels (ucmp : BasicComparer) (key : byteSlice)
    (levels : list tFiles) (i : nat) (ptrs : list Z) : option (bool * list Z) :=
  match levels with
  | [] => Some (true, ptrs)
  | lv :: levels' =>
      match ptrs !! i with
      | None => None
      | Some ptr =>
          if ptr <? 0 then None
          else
            let '(found, ptr') :=
              baseScan ucmp key (drop (Z.to_nat ptr) lv) ptr in
            let ptrs' := <[i := ptr']> ptrs in
            if found then Some (false, ptrs')
            else baseLevels ucmp key levels' (S i) ptrs'
      end
  end.

Definition with_tPtrs (c : compaction) (ptrs : list Z) : compaction :=
  {| c_version := c_version c; c_level := c_level c; c_tables := c_tables c;
     gp := gp c; gpidx := gpidx c; seenKey := seenKey c;
     overlappedBytes := overlappedBytes c; c_min := c_min c; c_max := c_max c;
     tPtrs := ptrs |}.

Definition isBaseLevelForKey (key : byteSlice) (c : compaction)
    : M (bool * compaction) :=
  s ← getSession;
  v ← load (c_version c);
  let ucmp := cmp (s_cmp s) in
  let from := c_level c + 2 in
  if (0 <=? from) && (from <=? len (v_tables v)) then
    match baseLevels ucmp key (drop (Z.to_nat from) (v_tables v)) 0 (tPtrs c) with
    | Some (b, ptrs) => mret (b, with_tPtrs c ptrs)
    | None => panic "index out of range"
    end
  else panic "slice bounds out of range".

(** *** newIterator *)

(** [opt.ReadOptions], as far as this file sets it. *)
Record ReadOptions := { DontFillCache : bool }.

(** The iterator package and the table cache, seen through their
    constructors. *)
Variable Iterator : Type.
Variable IndexIterator : Type.
Variable tops_newIterator : tFile -> ReadOptions -> Iterator.
Variable newIndexIterator : tFiles -> iComparer -> ReadOptions -> IndexIterator.
Variable NewIndexedIterator : IndexIterator -> bool -> bool -> Iterator.
Variable NewMergedIterator : list Iterator -> iComparer -> bool -> Iterator.

(** [icap], the capacity the slice of iterators is made with. *)
Definition iteratorCap (c : compaction) : Z :=
  if c_level c =? 0 then len (fst (c_tables c)) + 1 else 2.

(** One turn of [for i, tt := range c.tables]: the iterators appended for the
    input set [tt] at position [i]. *)
Definition iteratorsFor (s : session) (level i : Z) (tt : tFiles) : list Iterator :=
  let ro := {| DontFillCache := true |} in
  let strict := GetStrict (o s) StrictIterator in
  if len tt =? 0 then []
  else if level + i =? 0 then map (fun t => tops_newIterator t ro) tt
  else [NewIndexedIterator (newIndexIterator tt (s_cmp s) ro) strict true].

(** The slice [its] when the loop is over. *)
Definition inputIterators (s : session) (c : compaction) : list Iterator :=
  iteratorsFor s (c_level c) 0 (fst (c_tables c))
  ++ iteratorsFor s (c_level c) 1 (snd (c_tables c)).

Definition newIterator (c : compaction) : M Iterator :=
  s ← getSession;
  mret (NewMergedIterator (inputIterators s c) (s_cmp s) true).

(** *** newSession *)

(** [stor.Lock()] and [setOptions] are not in session.go: the first answers
    with a lock handle or an error, the second derives the session's options
    and internal comparer from the caller's options. *)
Variable stor_Lock : Storage -> Z + error.
Variable setOptions : Options -> Options * iComparer.

(** [&version{s: s}]: no table, score 0, no hint. *)
Definition emptyVersion : version :=
  {| v_tables := replicate (Z.to_nat kNumLevels) []; cLevel := 0;
     cScore := S754_zero false; cSeek := None |}.

(** The session and store [newSession] builds, or nil and the error. The
    lock handle and the table cache are not among the modelled fields of the
    session. *)
Definition newSession (sto : option Storage) (opts : Options)
    : option state * option error :=
  match sto with
  | None => (None, Some ErrInvalid)
  | Some sto =>
      match stor_Lock sto with
      | inr e => (None, Some e)
      | inl _ =>
          let '(o', icmp) := setOptions opts in
          (Some {| sess :=
                     {| stFileNum := 0; stJournalNum := 0; stPrevJournalNum := 0;
                        stSeq := 0; stor := sto; o := o'; s_cmp := icmp;
                        manifest := None; manifestWriter := None;
                        manifestFile := None;
                        stCPtrs := replicate (Z.to_nat kNumLevels) None;
                        stVersion := 0%nat |};
                   vers := [emptyVersion] |},
           None)
      end
  end.

(** *** Recovery, as the specification words it *)

(** One pointer update on the array of compaction pointers. *)
Definition writePtr (a : list iKey) (rp : cpRecord) : list iKey :=
  <[Z.to_nat (cp_level rp) := cp_key rp]> a.

(** The compaction-pointer updates of every successfully decoded record, in
    log order, up to the point where the replay stops: a decode failure
    ends the replay under strict validation and is skipped otherwise. *)
Fixpoint pointerWrites (strict : bool) (jr : list (bytes + error))
    (rec : sessionRecord) : list cpRecord :=
  match jr with
  | [] => []
  | inr _ :: _ => []
  | inl r :: jr' =>
      match decode rec r with
      | (rec', None) =>
          compactionPointers rec' ++ pointerWrites strict jr' (resetAll rec')
      | (rec', Some _) =>
          if strict then [] else pointerWrites strict jr' (resetAll rec')
      end
  end.

(** *** The overlap budget, named *)

(** The next grandparent file, if any, does not end before [key]. *)
Definition stopsAt (icmp : iComparer) (key : iKey) (rest : tFiles) : Prop :=
  match rest with
  | [] => True
  | g :: _ => iCompare icmp key (imax g) <= 0
  end.

(** The counter after the files [skipped] have been passed. *)
Definition accumulate (seen : bool) (skipped : tFiles) (ob : Z) : Z :=
  if seen then fold_left (fun a g => add64 a (size g)) skipped ob else ob.

(** The grandparent files, at the head of [rest], whose range ends before
    [key]. *)
Fixpoint passed (icmp : iComparer) (key : iKey) (rest : tFiles) : tFiles :=
  match rest with
  | [] => []
  | g :: rest' =>
      if 0 <? iCompare icmp key (imax g) then g :: passed icmp key rest' else []
  end.

(** The overlap budget over a run of keys, as the specification words it:
    each key moves the cursor past the files that end before it and adds
    their sizes to the counter, once a first key has been seen; the answer is
    a cut exactly when the counter exceeds the ceiling, and a cut resets the
    counter. [rest] is the part of the grandparent set after the cursor. *)
Fixpoint cuts (icmp : iComparer) (keys : list iKey) (rest : tFiles)
    (seen : bool) (ob : Z) : list bool :=
  match keys with
  | [] => []
  | key :: keys' =>
      let skipped := passed icmp key rest in
      let acc := accumulate seen skipped ob in
      let cut := kMaxGrandParentOverlapBytes <? acc in
      cut :: cuts icmp keys' (drop (length skipped) rest) true
               (if cut then 0 else acc)
  end.

(** *** The growth step of expand, named *)

(** The parent set gathered for the input set [t0], into [t1]. *)
Definition parentsOf (icmp : iComparer) (vt1 t0 t1 : tFiles) : tFiles :=
  let r := getRange t0 icmp in
  getOverlaps vt1 (ukey (fst r)) (ukey (snd r)) t1 true (cmp icmp).

(** The wider level-L set [exp0] covering the range of both sets. *)
Definition widerInputs (icmp : iComparer) (level : Z) (vt0 t0 t1 : tFiles) : tFiles :=
  let r := getRange (t0 ++ t1) icmp in
  getOverlaps vt0 (ukey (fst r)) (ukey (snd r)) [] (negb (level =? 0)) (cmp icmp).

(** The four conditions under which [exp0] replaces [t0]. *)
Definition grows (icmp : iComparer) (level : Z) (vt0 vt1 t0 t1 : tFiles) : Prop :=
  let exp0 := widerInputs icmp level vt0 t0 t1 in
  let exp1 := parentsOf icmp vt1 exp0 [] in
  0 < len t1
  /\ len t0 < len exp0
  /\ add64 (tFiles_size t1) (tFiles_size exp0) < kExpCompactionMaxBytes
  /\ len exp1 = len t1.

(** *** The planner's choice, named *)

(** A file qualifies when the compaction pointer is unset or its largest
    key is strictly above the pointer. *)
Definition qualifies (icmp : iComparer) (cp : iKey) (t : tFile) : Prop :=
  cp = None \/ 0 < iCompare icmp (imax t) cp.

(** *** The base-level scan, named *)

(** [key] lies past the file: the file's largest user key is below it. *)
Definition keyPast (ucmp : BasicComparer) (key : byteSlice) (t : tFile) : Prop :=
  0 < Compare ucmp key (ukey (imax t)).

(** [key] lies within the user-key range of the file. *)
Definition keyWithin (ucmp : BasicComparer) (key : byteSlice) (t : tFile) : Prop :=
  Compare ucmp key (ukey (imax t)) <= 0 /\ 0 <= Compare ucmp key (ukey (imin t)).

(** [key] lies before the file: below its smallest user key (and not above
    its largest). *)
Definition keyBefore (ucmp : BasicComparer) (key : byteSlice) (t : tFile) : Prop :=
  Compare ucmp key (ukey (imax t)) <= 0 /\ Compare ucmp key (ukey (imin t)) < 0.

(** What one level's scan from cursor [a] to cursor [a'] has established:
    the files in between all end before [key], and the file at [a'], if
    there is one, starts after [key]. *)
Definition scanned (ucmp : BasicComparer) (key : byteSlice) (lv : tFiles)
    (a a' : Z) : Prop :=
  exists skipped rest,
    drop (Z.to_nat a) lv = skipped ++ rest
    /\ a' = a + len skipped
    /\ Forall (keyPast ucmp key) skipped
    /\ match rest with
       | [] => True
       | t :: _ => keyBefore ucmp key t
       end.

(** ** Properties *)

(** *** trivial *)

(** C7, with the ceiling included: [trivial] is true exactly when the job has one level-L
    input file, no level-L+1 input file and a grandparent overlap of at most
    the ceiling, the ceiling itself included. *)
Theorem trivial_iff (c : compaction) :
  trivial c = true <->
  len (fst (c_tables c)) = 1 /\ len (snd (c_tables c)) = 0
  /\ tFiles_size (gp c) <= kMaxGrandParentOverlapBytes.
Proof using Type.
  unfold trivial.
  rewrite !andb_true_iff, !Z.eqb_eq, Z.leb_le.
  tauto.
Qed.

(** *** shouldStopBefore *)

Lemma stopLoop_split icmp key seen rest idx ob :
  exists skipped rest',
    rest = skipped ++ rest'
    /\ Forall (fun g => 0 < iCompare icmp key (imax g)) skipped
    /\ stopsAt icmp key rest'
    /\ stopLoop icmp key seen rest idx ob
       = (idx + len skipped, accumulate seen skipped ob).
Proof using Type.
  revert idx ob. induction rest as [|g rest IH]; intros idx ob.
  - exists [], []. repeat split; [constructor | ].
    unfold accumulate, len; simpl. destruct seen; f_equal; lia.
  - simpl. destruct (iCompare icmp key (imax g) <=? 0) eqn:Hc.
    + exists [], (g :: rest). repeat split; [constructor | |].
      * simpl. lia.
      * unfold accumulate, len; simpl. destruct seen; f_equal; lia.
    + destruct (IH (idx + 1) (if seen then add64 ob (size g) else ob))
        as (sk & rest' & -> & Hall & Hstop & Heq).
      exists (g :: sk), rest'. repeat split; [constructor; [lia | exact Hall] | exact Hstop |].
      rewrite Heq. unfold accumulate, len. simpl length.
      destruct seen; simpl; f_equal; lia.
Qed.

Lemma stopLoop_passed icmp key seen rest idx ob :
  stopLoop icmp key seen rest idx ob
  = (idx + len (passed icmp key rest), accumulate seen (passed icmp key rest) ob).
Proof using Type.
  revert idx ob. induction rest as [|g rest IH]; intros idx ob; simpl.
  - unfold accumulate, len; simpl. destruct seen; f_equal; lia.
  - destruct (iCompare icmp key (imax g) <=? 0) eqn:Hc.
    + apply Z.leb_le in Hc.
      destruct (0 <? iCompare icmp key (imax g)) eqn:Hd;
        [apply Z.ltb_lt in Hd; lia|].
      unfold accumulate, len; simpl. destruct seen; f_equal; lia.
    + apply Z.leb_gt in Hc.
      destruct (0 <? iCompare icmp key (imax g)) eqn:Hd;
        [|apply Z.ltb_ge in Hd; lia].
      rewrite IH. unfold accumulate, len. simpl length.
      destruct seen; simpl; f_equal; lia.
Qed.

Lemma feed_cuts keys : forall c st,
  0 <= gpidx c ->
  exists c',
    feed keys c st
    = Done (cuts (s_cmp (sess st)) keys (drop (Z.to_nat (gpidx c)) (gp c))
              (seenKey c) (overlappedBytes c), c') st.
Proof using Type.
  induction keys as [|key keys IH]; intros c st Hidx; simpl.
  - eexists; reflexivity.
  - unfold mbind, M_bind. unfold shouldStopBefore at 1.
    unfold mbind, M_bind, getSession, mret, M_ret.
    destruct (gpidx c <? 0) eqn:Hneg; [apply Z.ltb_lt in Hneg; lia|].
    rewrite stopLoop_passed.
    set (sk := passed (s_cmp (sess st)) key (drop (Z.to_nat (gpidx c)) (gp c))).
    set (acc := accumulate (seenKey c) sk (overlappedBytes c)).
    set (c1 := {| c_version := c_version c; c_level := c_level c;
                  c_tables := c_tables c; gp := gp c; gpidx := gpidx c + len sk;
                  seenKey := true;
                  overlappedBytes :=
                    if kMaxGrandParentOverlapBytes <? acc then 0 else acc;
                  c_min := c_min c; c_max := c_max c; tPtrs := tPtrs c |}).
    simpl snd. simpl fst.
    destruct (IH c1 st) as [c' Hc']; [unfold c1, len; simpl; lia|].
    rewrite Hc'. simpl.
    assert (Hdrop : drop (Z.to_nat (gpidx c + len sk)) (gp c)
                    = drop (length sk) (drop (Z.to_nat (gpidx c)) (gp c))).
    { unfold len. rewrite Z2Nat.inj_add, Nat2Z.id by lia.
      rewrite drop_drop. reflexivity. }
    rewrite Hdrop. eexists; reflexivity.
Qed.

(** C6: one call of [shouldStopBefore], on any key, passes exactly the
    grandparent files, from the cursor on, whose largest key is strictly
    below [key]; their sizes are added to the counter only if a key was seen
    before; the call answers true exactly when the counter then exceeds the
    ceiling, and in that case resets the counter to zero, so that a following
    call that passes no further file answers false. Over any run of keys the
    answers are those of the overlap budget [cuts]. *)
Theorem shouldStopBefore_budget (key : iKey) (c : compaction) (st : state)
    (Hidx : 0 <= gpidx c) (Hceil : 0 <= kMaxGrandParentOverlapBytes) :
  let icmp := s_cmp (sess st) in
  (exists skipped rest c',
    drop (Z.to_nat (gpidx c)) (gp c) = skipped ++ rest
    /\ Forall (fun g => 0 < iCompare icmp key (imax g)) skipped
    /\ stopsAt icmp key rest
    /\ let acc := accumulate (seenKey c) skipped (overlappedBytes c) in
       let cut := kMaxGrandParentOverlapBytes <? acc in
       shouldStopBefore key c st = Done (cut, c') st
       /\ (cut = true <-> kMaxGrandParentOverlapBytes < acc)
       /\ overlappedBytes c' = (if cut then 0 else acc)
       /\ gpidx c' = gpidx c + len skipped
       /\ seenKey c' = true
       /\ gp c' = gp c
       /\ (cut = true ->
           forall key', stopsAt icmp key' rest ->
             exists c'', shouldStopBefore key' c' st = Done (false, c'') st
                         /\ overlappedBytes c'' = 0))
  /\ (forall keys, exists c_end,
        feed keys c st
        = Done (cuts icmp keys (drop (Z.to_nat (gpidx c)) (gp c))
                  (seenKey c) (overlappedBytes c), c_end) st).
Proof using Type.
  intros icmp. split; [|intros keys; apply feed_cuts; exact Hidx].
  destruct (stopLoop_split icmp key (seenKey c)
              (drop (Z.to_nat (gpidx c)) (gp c)) (gpidx c) (overlappedBytes c))
    as (sk & rest & Hsplit & Hall & Hstop & Heq).
  eexists sk, rest, _. split; [exact Hsplit|]. split; [exact Hall|].
  split; [exact Hstop|]. cbv zeta.
  split.
  { unfold shouldStopBefore, mbind, M_bind, getSession, mret, M_ret. fold icmp.
    destruct (gpidx c <? 0) eqn:Hneg; [apply Z.ltb_lt in Hneg; lia|].
    rewrite Heq. reflexivity. }
  split; [apply Z.ltb_lt|].
  simpl. repeat split.
  intros Hcut key' Hstop'.
  unfold shouldStopBefore, mbind, M_bind, getSession, mret, M_ret. fold icmp.
  simpl. rewrite Hcut.
  assert (Hpos : (gpidx c + len sk <? 0) = false)
    by (apply Z.ltb_ge; unfold len; lia).
  rewrite Hpos.
  assert (Hdrop : drop (Z.to_nat (gpidx c + len sk)) (gp c) = rest).
  { unfold len. rewrite Z2Nat.inj_add, Nat2Z.id by lia.
    rewrite <- drop_drop, Hsplit. rewrite drop_app_length. reflexivity. }
  rewrite Hdrop.
  assert (Hloop : stopLoop icmp key' true rest (gpidx c + len sk) 0
                  = (gpidx c + len sk, 0)).
  { destruct rest as [|g rest']; [reflexivity|]. simpl in *.
    destruct (iCompare icmp key' (imax g) <=? 0) eqn:Hc; [reflexivity|].
    apply Z.leb_gt in Hc. lia. }
  rewrite Hloop.
  assert (Hle : (kMaxGrandParentOverlapBytes <? 0) = false)
    by (apply Z.ltb_ge; lia).
  rewrite Hle. eexists. split; reflexivity.
Qed.

(** *** expand *)

Lemma grow_tables icmp level vt0 vt1 t0 t1 min max amin amax :
  let exp0 := widerInputs icmp level vt0 t0 t1 in
  let exp1 := parentsOf icmp vt1 exp0 [] in
  let r := grow icmp level vt0 vt1 t0 t1 min max amin amax in
  amin = fst (getRange (t0 ++ t1) icmp) ->
  amax = snd (getRange (t0 ++ t1) icmp) ->
  (grows icmp level vt0 vt1 t0 t1 -> r.1.1.1.2 = exp0 /\ r.1.1.2 = exp1)
  /\ (~ grows icmp level vt0 vt1 t0 t1 -> r.1.1.1.2 = t0 /\ r.1.1.2 = t1).
Proof using Type.
  intros exp0 exp1 r -> ->. subst r exp1 exp0.
  unfold grow, grows, widerInputs, parentsOf. cbv zeta.
  destruct (getRange (t0 ++ t1) icmp) as [a b]. simpl fst. simpl snd.
  set (e0 := getOverlaps vt0 (ukey a) (ukey b) [] (negb (level =? 0)) (cmp icmp)).
  destruct (getRange e0 icmp) as [xmin xmax]. simpl fst. simpl snd.
  set (e1 := getOverlaps vt1 (ukey xmin) (ukey xmax) [] true (cmp icmp)).
  destruct (getRange (e0 ++ e1) icmp) as [amin' amax'].
  destruct (0 <? len t1) eqn:H1; [apply Z.ltb_lt in H1 | apply Z.ltb_ge in H1].
  2: { simpl. split; [intros (? & _); lia | auto]. }
  destruct (len t0 <? len e0) eqn:H2; [apply Z.ltb_lt in H2 | apply Z.ltb_ge in H2].
  2: { simpl. split; [intros (_ & ? & _); lia | auto]. }
  destruct (add64 (tFiles_size t1) (tFiles_size e0) <? kExpCompactionMaxBytes) eqn:H3;
    [apply Z.ltb_lt in H3 | apply Z.ltb_ge in H3].
  2: { simpl. split; [intros (_ & _ & ? & _); lia | auto]. }
  simpl.
  destruct (len e1 =? len t1) eqn:H4; [apply Z.eqb_eq in H4 | apply Z.eqb_neq in H4].
  - simpl. split; [auto | intros Hn; exfalso; apply Hn; auto].
  - simpl. split; [intros (_ & _ & _ & ?); lia | auto].
Qed.

(** C5: [expand] returns, leaves the state alone, and its level-L set is the
    wider set [exp0] exactly when the parent set is non-empty, [exp0] has
    strictly more files than the original set, the size of the parent set
    plus that of [exp0] (a uint64 sum) is below the expansion ceiling and
    the parent set of [exp0] has as many files as the original parent set;
    otherwise the sets are the original ones. The result is one of these
    two, whatever a further growth step would give. *)
Theorem expand_growth (c : compaction) (st : state) (v : version)
    (vt0 vt1 : tFiles)
    (Hv : vers st !! c_version c = Some v)
    (H0 : index (v_tables v) (c_level c) = Some vt0)
    (H1 : index (v_tables v) (c_level c + 1) = Some vt1)
    (H2 : c_level c + 2 < kNumLevels ->
          is_Some (index (v_tables v) (c_level c + 2))) :
  let icmp := s_cmp (sess st) in
  let level := c_level c in
  let t0 := fst (c_tables c) in
  let t1 := parentsOf icmp vt1 t0 (snd (c_tables c)) in
  let exp0 := widerInputs icmp level vt0 t0 t1 in
  let exp1 := parentsOf icmp vt1 exp0 [] in
  exists c',
    expand c st = Done c' st
    /\ (grows icmp level vt0 vt1 t0 t1 -> c_tables c' = (exp0, exp1))
    /\ (~ grows icmp level vt0 vt1 t0 t1 -> c_tables c' = (t0, t1))
    /\ (fst (c_tables c') <> t0 -> grows icmp level vt0 vt1 t0 t1)
    /\ (fst (c_tables c') = t0 \/ fst (c_tables c') = exp0).
Proof using Type.
  intros icmp level t0 t1 exp0 exp1.
  assert (Hdec : grows icmp level vt0 vt1 t0 t1 \/ ~ grows icmp level vt0 vt1 t0 t1).
  { unfold grows. cbv zeta.
    destruct (Z_lt_dec 0 (len t1));
      [|right; intros (a1 & a2 & a3 & a4); contradiction].
    destruct (Z_lt_dec (len t0) (len (widerInputs icmp level vt0 t0 t1)));
      [|right; intros (a1 & a2 & a3 & a4); contradiction].
    destruct (Z_lt_dec (add64 (tFiles_size t1)
                (tFiles_size (widerInputs icmp level vt0 t0 t1)))
                kExpCompactionMaxBytes);
      [|right; intros (a1 & a2 & a3 & a4); contradiction].
    destruct (Z.eq_dec (len (parentsOf icmp vt1 (widerInputs icmp level vt0 t0 t1) []))
                (len t1));
      [left; repeat split; assumption
      |right; intros (a1 & a2 & a3 & a4); contradiction]. }
  subst level.
  unfold expand, mbind, M_bind, getSession, load, at_index, mret, M_ret, panic.
  rewrite Hv, H0, H1.
  destruct (c_tables c) as [t0' t1'] eqn:Ht. simpl in t0. subst t0.
  fold icmp.
  unfold parentsOf in t1. simpl in t1.
  destruct (getRange t0' icmp) as [mn mx] eqn:Hr. simpl in t1. fold t1.
  destruct (getRange (t0' ++ t1) icmp) as [amin amax] eqn:Ha.
  pose proof (grow_tables icmp (c_level c) vt0 vt1 t0' t1 mn mx amin amax) as Hg.
  cbv zeta in Hg. rewrite Ha in Hg. specialize (Hg eq_refl eq_refl).
  destruct (grow icmp (c_level c) vt0 vt1 t0' t1 mn mx amin amax)
    as [[[[[mn' mx'] t0r] t1r] amin'] amax'] eqn:Hgrow.
  simpl in Hg. destruct Hg as [Hyes Hno].
  assert (Hfin : forall c' : compaction,
    c_tables c' = (t0r, t1r) ->
    (grows icmp (c_level c) vt0 vt1 t0' t1 -> c_tables c' = (exp0, exp1))
    /\ (~ grows icmp (c_level c) vt0 vt1 t0' t1 -> c_tables c' = (t0', t1))
    /\ (fst (c_tables c') <> t0' -> grows icmp (c_level c) vt0 vt1 t0' t1)
    /\ (fst (c_tables c') = t0' \/ fst (c_tables c') = exp0)).
  { intros c' ->. simpl.
    split; [intros Hy; destruct (Hyes Hy) as [-> ->]; reflexivity|].
    split; [intros Hn; destruct (Hno Hn) as [-> ->]; reflexivity|].
    split.
    - intros Hne. destruct Hdec as [Hy|Hn]; [exact Hy|].
      destruct (Hno Hn) as [-> _]. congruence.
    - destruct Hdec as [Hy|Hn].
      + right. apply (Hyes Hy).
      + left. apply (Hno Hn). }
  destruct (c_level c + 2 <? kNumLevels) eqn:Hl.
  - apply Z.ltb_lt in Hl. destruct (H2 Hl) as [vt2 Hvt2]. rewrite Hvt2.
    eexists. split; [reflexivity|]. apply Hfin. reflexivity.
  - eexists. split; [reflexivity|]. apply Hfin. reflexivity.
Qed.

(** *** pickCompaction *)

Lemma qualifies_test icmp cp t :
  isNil cp || (0 <? iCompare icmp (imax t) cp) = true <-> qualifies icmp cp t.
Proof using Type.
  unfold qualifies. rewrite orb_true_iff, Z.ltb_lt.
  destruct cp; simpl; split; intros [H|H]; auto; discriminate.
Qed.

Lemma firstAfter_spec icmp cp tt :
  (exists pre t post,
      tt = pre ++ t :: post /\ qualifies icmp cp t
      /\ Forall (fun u => ~ qualifies icmp cp u) pre
      /\ firstAfter icmp cp tt = [t])
  \/ (Forall (fun u => ~ qualifies icmp cp u) tt /\ firstAfter icmp cp tt = []).
Proof using Type.
  induction tt as [|t tt IH]; [right; split; [constructor | reflexivity]|].
  simpl. destruct (isNil cp || (0 <? iCompare icmp (imax t) cp)) eqn:Hq.
  - left. exists [], t, tt. apply qualifies_test in Hq.
    repeat split; [exact Hq | constructor].
  - assert (Hn : ~ qualifies icmp cp t).
    { intros Hq'. apply qualifies_test in Hq'. congruence. }
    destruct IH as [(pre & u & post & -> & Hu & Hpre & Hf) | [Hall Hf]].
    + left. exists (t :: pre), u, post.
      repeat split; [exact Hu | constructor; assumption | exact Hf].
    + right. split; [constructor; assumption | exact Hf].
Qed.

(** C2: with a top score of at least 1 and a non-empty candidate level, the
    initial input is a single file of that level: the first one, in level
    order, whose largest key is strictly above the level's compaction
    pointer (any first file when the pointer is unset), and the first file
    of the level when no file is above the pointer. *)
Theorem pickInput_by_score (st : state) (v : version) (cp : iKey) (tt : tFiles)
    (Hv : vers st !! stVersion (sess st) = Some v)
    (Hs : ge1 (cScore v) = true)
    (Hcp : index (stCPtrs (sess st)) (cLevel v) = Some cp)
    (Htt : index (v_tables v) (cLevel v) = Some tt)
    (Hne : tt <> []) :
  let icmp := s_cmp (sess st) in
  exists t,
    pickInput st = Done (Some (stVersion (sess st), cLevel v, [t])) st
    /\ ((exists pre post,
            tt = pre ++ t :: post /\ qualifies icmp cp t
            /\ Forall (fun u => ~ qualifies icmp cp u) pre)
        \/ (Forall (fun u => ~ qualifies icmp cp u) tt /\ tt !! 0%nat = Some t))
    /\ (cp = None -> tt !! 0%nat = Some t).
Proof using Type.
  intros icmp.
  unfold pickInput, mbind, M_bind, getSession, version_NB, load, at_index,
    mret, M_ret, panic.
  rewrite Hv, Hs, Hcp, Htt. fold icmp.
  destruct (firstAfter_spec icmp cp tt)
    as [(pre & t & post & Heq & Hq & Hpre & Hf) | [Hall Hf]].
  - rewrite Hf. simpl. exists t. split; [reflexivity|].
    split; [left; exists pre, post; auto|].
    intros ->. destruct pre as [|u pre]; [subst tt; reflexivity|].
    inversion Hpre as [|? ? Hu _]. exfalso. apply Hu. left. reflexivity.
  - rewrite Hf. simpl. destruct tt as [|t tt']; [congruence|].
    simpl. exists t. split; [reflexivity|].
    split; [right; split; [exact Hall | reflexivity] | reflexivity].
Qed.

(** [buildCompaction] and [expand] only read the state. *)
Lemma expand_state c st r st' : expand c st = Done r st' -> st' = st.
Proof using Type.
  unfold expand, mbind, M_bind, getSession, load, at_index, mret, M_ret, panic.
  destruct (vers st !! c_version c); [|discriminate].
  destruct (index (v_tables v) (c_level c)); [|discriminate].
  destruct (index (v_tables v) (c_level c + 1)); [|discriminate].
  destruct (c_tables c) as [a0 a1].
  destruct (getRange a0 (s_cmp (sess st))) as [mn mx].
  destruct (getRange _ _) as [amin amax].
  destruct (grow _ _ _ _ _ _ _ _ _ _) as [[[[[? ?] ?] ?] ?] ?].
  destruct (c_level c + 2 <? kNumLevels).
  - destruct (index (v_tables v) (c_level c + 2)); [|discriminate]. congruence.
  - congruence.
Qed.

Lemma buildCompaction_state p level t0 st r st' :
  buildCompaction p level t0 st = Done r st' -> st' = st.
Proof using Type.
  unfold buildCompaction, mbind, M_bind, getSession, load.
  destruct (vers st !! p); [|discriminate].
  destruct (level =? 0).
  - destruct (getRange t0 (s_cmp (sess st))) as [mn mx].
    unfold at_index, mret, M_ret, panic.
    destruct (index (v_tables v) 0); [|discriminate]. apply expand_state.
  - unfold mret, M_ret. apply expand_state.
Qed.

Lemma pickInput_state st r st' : pickInput st = Done r st' -> st' = st.
Proof using Type.
  unfold pickInput, mbind, M_bind, getSession, version_NB, load, at_index,
    mret, M_ret, panic.
  destruct (vers st !! stVersion (sess st)) as [v|]; [|discriminate].
  destruct (ge1 (cScore v)).
  - destruct (index (stCPtrs (sess st)) (cLevel v)) as [cp|]; [|discriminate].
    destruct (index (v_tables v) (cLevel v)) as [tt|]; [|discriminate].
    destruct (len (firstAfter (s_cmp (sess st)) cp tt) =? 0).
    + destruct (index tt 0); [|discriminate]. congruence.
    + congruence.
  - destruct (cSeek v); congruence.
Qed.

Lemma pickCompaction_state st r st' : pickCompaction st = Done r st' -> st' = st.
Proof using Type.
  unfold pickCompaction, mbind, M_bind.
  destruct (pickInput st) as [sel st1|] eqn:Hp; [|discriminate].
  apply pickInput_state in Hp. subst st1.
  destruct sel as [[[p level] t0]|].
  - destruct (buildCompaction p level t0 st) as [c st2|] eqn:Hb; [|discriminate].
    apply buildCompaction_state in Hb. subst st2.
    unfold mret, M_ret. congruence.
  - unfold mret, M_ret. congruence.
Qed.

(** C3, with the hint left in place: with a top score below 1 and a seek
    hint present, the initial input is the hint's file alone at the hint's
    level, and the pick leaves the hint where it is: whenever
    [pickCompaction] returns, the state is unchanged, the hint is still set,
    and a second pick gives the same answer from the same hint. *)
Theorem pickInput_by_seek (st : state) (v : version) (ts : tSet)
    (Hv : vers st !! stVersion (sess st) = Some v)
    (Hs : ge1 (cScore v) = false)
    (Hseek : cSeek v = Some ts) :
  pickInput st
    = Done (Some (stVersion (sess st), ts_level ts, [ts_table ts])) st
  /\ forall r st',
       pickCompaction st = Done r st' ->
       st' = st
       /\ r <> None
       /\ (cSeek <$> vers st' !! stVersion (sess st')) = Some (Some ts)
       /\ pickCompaction st' = Done r st'.
Proof using Type.
  assert (Hin : pickInput st
    = Done (Some (stVersion (sess st), ts_level ts, [ts_table ts])) st).
  { unfold pickInput, mbind, M_bind, getSession, version_NB, load.
    rewrite Hv, Hs, Hseek. reflexivity. }
  split; [exact Hin|].
  intros r st' Hp. pose proof (pickCompaction_state _ _ _ Hp) as ->.
  split; [reflexivity|]. split.
  - unfold pickCompaction, mbind, M_bind in Hp. rewrite Hin in Hp.
    destruct (buildCompaction _ _ _ st); [|discriminate].
    unfold mret, M_ret in Hp. congruence.
  - split; [rewrite Hv; simpl; congruence | exact Hp].
Qed.

Lemma index_in_range {A} (l : list A) (i : Z) :
  0 <= i < len l -> is_Some (index l i).
Proof using Type.
  intros [Hlo Hhi]. unfold index.
  destruct (0 <=? i) eqn:H0; [|apply Z.leb_gt in H0; lia].
  apply lookup_lt_is_Some. unfold len in Hhi. lia.
Qed.

Lemma expand_returns (c : compaction) (st : state) (v : version) :
  vers st !! c_version c = Some v ->
  is_Some (index (v_tables v) (c_level c)) ->
  is_Some (index (v_tables v) (c_level c + 1)) ->
  (c_level c + 2 < kNumLevels -> is_Some (index (v_tables v) (c_level c + 2))) ->
  exists c', expand c st = Done c' st.
Proof using Type.
  intros Hv [vt0 H0] [vt1 H1] H2.
  unfold expand, mbind, M_bind, getSession, load, at_index, mret, M_ret, panic.
  rewrite Hv, H0, H1.
  destruct (c_tables c) as [a0 a1].
  destruct (getRange a0 (s_cmp (sess st))) as [mn mx].
  destruct (getRange _ _) as [amin amax].
  destruct (grow _ _ _ _ _ _ _ _ _ _) as [[[[[? ?] ?] ?] ?] ?].
  destruct (c_level c + 2 <? kNumLevels) eqn:Hl.
  - apply Z.ltb_lt in Hl. destruct (H2 Hl) as [vt2 ->]. eexists; reflexivity.
  - eexists; reflexivity.
Qed.

(** C4, with its precondition: with a top score of at least 1,
    [pickCompaction] never returns the nil result; and it returns a
    compaction object whenever the candidate level is a level below the last
    one and holds at least one file (both arrays having their [kNumLevels]
    entries). *)
Theorem pickCompaction_live (st : state) (v : version)
    (Hv : vers st !! stVersion (sess st) = Some v)
    (Hs : ge1 (cScore v) = true) :
  (forall st', pickCompaction st <> Done None st')
  /\ (forall tt,
        len (stCPtrs (sess st)) = kNumLevels ->
        len (v_tables v) = kNumLevels ->
        0 <= cLevel v -> cLevel v + 1 < kNumLevels ->
        index (v_tables v) (cLevel v) = Some tt -> tt <> [] ->
        exists c, pickCompaction st = Done (Some c) st).
Proof using Type.
  split.
  - intros st' Hp.
    unfold pickCompaction, mbind, M_bind in Hp.
    destruct (pickInput st) as [sel st1|] eqn:Hin; [|discriminate].
    destruct sel as [[[p level] t0]|].
    + destruct (buildCompaction p level t0 st1); [|discriminate].
      unfold mret, M_ret in Hp. congruence.
    + unfold pickInput, mbind, M_bind, getSession, version_NB, load,
        at_index, mret, M_ret, panic in Hin.
      rewrite Hv, Hs in Hin.
      destruct (index (stCPtrs (sess st)) (cLevel v)) as [cp|]; [|discriminate].
      destruct (index (v_tables v) (cLevel v)) as [tt|]; [|discriminate].
      destruct (len (firstAfter (s_cmp (sess st)) cp tt) =? 0).
      * destruct (index tt 0); discriminate.
      * discriminate.
  - intros tt Hlc Hlt Hlo Hhi Htt Hne.
    destruct (index_in_range (stCPtrs (sess st)) (cLevel v)) as [cp Hcp]; [lia|].
    assert (Hin : exists t,
      pickInput st = Done (Some (stVersion (sess st), cLevel v, [t])) st).
    { unfold pickInput, mbind, M_bind, getSession, version_NB, load, at_index,
        mret, M_ret, panic.
      rewrite Hv, Hs, Hcp, Htt.
      destruct (firstAfter_spec (s_cmp (sess st)) cp tt)
        as [(pre & t & post & Heq & Hq & Hpre & Hf) | [Hall Hf]]; rewrite Hf; simpl.
      - eexists; reflexivity.
      - destruct tt as [|t tt']; [congruence|]. eexists; reflexivity. }
    destruct Hin as [t Hin].
    unfold pickCompaction, mbind, M_bind. rewrite Hin.
    unfold buildCompaction, mbind, M_bind, getSession, load. rewrite Hv.
    assert (Hex : forall t0, exists c,
      expand (with_tables0 (newCompaction kNumLevels (stVersion (sess st)) (cLevel v)) t0) st
      = Done c st).
    { intros t0. apply (expand_returns _ st v); simpl.
      - exact Hv.
      - apply index_in_range. lia.
      - apply index_in_range. lia.
      - intros Hl. apply index_in_range. lia. }
    destruct (cLevel v =? 0) eqn:Hz.
    + destruct (getRange [t] (s_cmp (sess st))) as [mn mx].
      destruct (index_in_range (v_tables v) 0) as [vt Hvt]; [lia|].
      unfold at_index, mret, M_ret. rewrite Hvt.
      destruct (Hex (getOverlaps vt (ukey mn) (ukey mx) [] false
                       (cmp (s_cmp (sess st))))) as [c Hc].
      rewrite Hc. eexists; reflexivity.
    + unfold mret, M_ret. destruct (Hex [t]) as [c Hc]. rewrite Hc.
      eexists; reflexivity.
Qed.

(** C9: the wrap-around path reads the first file of the candidate level
    unchecked. With a top score of at least 1 and the level's list at hand,
    the choice of the initial input returns when the list is non-empty, and
    is an index-out-of-range panic when it is empty, a panic that
    [pickCompaction] passes on. *)
Theorem pickInput_first_file_bounds (st : state) (v : version) (cp : iKey)
    (tt : tFiles)
    (Hv : vers st !! stVersion (sess st) = Some v)
    (Hs : ge1 (cScore v) = true)
    (Hcp : index (stCPtrs (sess st)) (cLevel v) = Some cp)
    (Htt : index (v_tables v) (cLevel v) = Some tt) :
  (tt <> [] -> exists r, pickInput st = Done (Some r) st)
  /\ (tt = [] ->
      pickInput st = Panic "index out of range" st
      /\ pickCompaction st = Panic "index out of range" st).
Proof using Type.
  assert (Hstep : pickInput st
    = (if len (firstAfter (s_cmp (sess st)) cp tt) =? 0
       then match index tt 0 with
            | Some t => Done (Some (stVersion (sess st), cLevel v, [t])) st
            | None => Panic "index out of range" st
            end
       else Done (Some (stVersion (sess st), cLevel v,
                        firstAfter (s_cmp (sess st)) cp tt)) st)).
  { unfold pickInput, mbind, M_bind, getSession, version_NB, load, at_index,
      mret, M_ret, panic.
    rewrite Hv, Hs, Hcp, Htt.
    destruct (len (firstAfter (s_cmp (sess st)) cp tt) =? 0); [|reflexivity].
    destruct (index tt 0); reflexivity. }
  split.
  - intros Hne. rewrite Hstep.
    destruct (len (firstAfter (s_cmp (sess st)) cp tt) =? 0).
    + destruct tt as [|t tt']; [congruence|]. eexists; reflexivity.
    + eexists; reflexivity.
  - intros ->. simpl in Hstep.
    split; [exact Hstep|].
    unfold pickCompaction, mbind, M_bind. rewrite Hstep. reflexivity.
Qed.

(** *** commit *)

(** C1: [commit r] builds the candidate version from the current one and
    [r] at a fresh address, runs the manifest operation (creation when no
    writer exists, append otherwise) and returns its answer. The candidate
    is the current version afterwards if and only if that answer is nil;
    on an error the current-version pointer and the version it points to
    are what they were before the call. *)
Theorem commit_publishes (r : sessionRecord) (st : state) (v : version)
    (Hv : vers st !! stVersion (sess st) = Some v) :
  let nv := length (vers st) in
  let st1 := {| sess := sess st; vers := vers st ++ [spawn v r] |} in
  let res := match manifest (sess st) with
             | None => newManifest (Some r) (Some nv) st1
             | Some _ => flushManifest r st1
             end in
  exists st',
    commit r st = Done (fst res) st'
    /\ (fst res = None <-> stVersion (sess st') = nv)
    /\ (fst res = None ->
        vers st' !! stVersion (sess st') = Some (spawn v r))
    /\ (forall e, fst res = Some e ->
        st' = snd res
        /\ stVersion (sess st') = stVersion (sess st)
        /\ vers st' !! stVersion (sess st') = Some v).
Proof using Type newManifest_frame flushManifest_frame.
  intros nv st1 res.
  assert (Hframe : stVersion (sess (snd res)) = stVersion (sess st)
                   /\ vers (snd res) = vers st ++ [spawn v r]).
  { subst res. destruct (manifest (sess st)).
    - apply (flushManifest_frame r st1).
    - apply (newManifest_frame (Some r) (Some nv) st1). }
  destruct Hframe as [Hp Hh].
  assert (Hold : (stVersion (sess st) < nv)%nat).
  { subst nv. eapply lookup_lt_Some. exact Hv. }
  assert (Hrun : commit r st
    = match fst res with
      | None => Done None
                  {| sess := with_stVersion (sess (snd res)) nv;
                     vers := vers (snd res) |}
      | Some e => Done (Some e) (snd res)
      end).
  { unfold commit, spawnVersion, mbind, M_bind, version_NB, load, alloc,
      getSession, call, setVersion, putSession, mret, M_ret.
    rewrite Hv. subst res. cbn [sess vers].
    destruct (manifest (sess st)).
    - change (flushManifest r _) with (flushManifest r st1).
      destruct (flushManifest r st1) as [[e|] st2]; reflexivity.
    - change (newManifest (Some r) _ _) with (newManifest (Some r) (Some nv) st1).
      destruct (newManifest (Some r) (Some nv) st1) as [[e|] st2]; reflexivity. }
  destruct (fst res) as [e|] eqn:Hres.
  - exists (snd res). split; [exact Hrun|]. split.
    + split; [discriminate|]. rewrite Hp. lia.
    + split; [discriminate|]. intros e' _. split; [reflexivity|].
      split; [exact Hp|]. rewrite Hp, Hh. rewrite lookup_app_l by exact Hold.
      exact Hv.
  - eexists. split; [exact Hrun|]. simpl.
    split; [split; reflexivity|]. split.
    + intros _. rewrite Hh. subst nv. rewrite lookup_app_r by lia.
      rewrite Nat.sub_diag. reflexivity.
    + discriminate.
Qed.

(** *** recover *)

(** C8: when the storage has no manifest (the error of [GetManifest]
    satisfies [os.IsNotExist]), [recover] touches nothing; it returns the
    manifest-missing error, wrapped as [ErrManifest], if the storage lists
    any file, and passes the not-exist error on only when the storage lists
    none. *)
Theorem recover_manifest_missing (st : state) (e : error)
    (Hm : GetManifest (stor (sess st)) = inr e)
    (Hne : os_IsNotExist (Some e) = true) :
  let files := fst (GetFiles (stor (sess st)) TypeAll) in
  (files <> [] ->
     recover st
     = Done (Some (ErrManifest (errors_New "leveldb: manifest file missing"))) st)
  /\ (files = [] -> recover st = Done (Some e) st).
Proof using Type.
  intros files.
  assert (Hrun : recover st
    = if 0 <? len files
      then Done (Some (ErrManifest (errors_New "leveldb: manifest file missing"))) st
      else Done (Some e) st).
  { unfold recover, recoverBody, mbind, M_bind, getSession, mret, M_ret.
    rewrite Hm, Hne. subst files.
    destruct (GetFiles (stor (sess st)) TypeAll) as [fs ?]. simpl.
    destruct (0 <? len fs); reflexivity. }
  rewrite Hrun. split.
  - intros Hf. destruct files; [congruence|]. reflexivity.
  - intros ->. reflexivity.
Qed.

(** What a failing recovery may have touched: nothing but the compaction
    pointers, which are now [cps]. *)
Lemma savePointers_effect cps st :
  match savePointers cps st with
  | Done _ st' =>
      vers st' = vers st
      /\ stVersion (sess st') = stVersion (sess st)
      /\ stFileNum (sess st') = stFileNum (sess st)
      /\ stCPtrs (sess st') = fold_left writePtr cps (stCPtrs (sess st))
  | Panic _ _ => True
  end.
Proof using Type.
  revert st. induction cps as [|rp cps IH]; intros st; simpl.
  - unfold mret, M_ret. auto.
  - unfold mbind, M_bind, getSession, putSession, panic.
    destruct (store (stCPtrs (sess st)) (cp_level rp) (cp_key rp)) as [a|] eqn:Hst;
      [|exact I].
    specialize (IH {| sess := with_stCPtrs (sess st) a; vers := vers st |}).
    destruct (savePointers cps _) as [u st'|]; [|exact I].
    simpl in IH. destruct IH as (Hh & Hp & Hn & Hc).
    repeat split; try assumption.
    rewrite Hc. unfold store in Hst.
    destruct ((0 <=? cp_level rp) && (cp_level rp <? len (stCPtrs (sess st))));
      [|discriminate].
    injection Hst as <-. reflexivity.
Qed.

Lemma replay_effect strict jr staging rec st r st' :
  replay strict jr staging rec st = Done r st' ->
  vers st' = vers st
  /\ stVersion (sess st') = stVersion (sess st)
  /\ stFileNum (sess st') = stFileNum (sess st)
  /\ stCPtrs (sess st')
     = fold_left writePtr (pointerWrites strict jr rec) (stCPtrs (sess st)).
Proof using Type.
  revert staging rec st. induction jr as [|[r0|e] jr IH]; intros staging rec st; simpl.
  - unfold mret, M_ret. intros [= _ <-]. auto.
  - destruct (decode rec r0) as [rec' [e|]].
    + destruct strict.
      * unfold mret, M_ret. intros [= _ <-]. auto.
      * apply IH.
    + unfold mbind, M_bind.
      pose proof (savePointers_effect (compactionPointers rec') st) as Hs.
      destruct (savePointers (compactionPointers rec') st) as [u st1|]; [|discriminate].
      destruct Hs as (Hh & Hp & Hn & Hc). intros Hr.
      destruct (IH _ _ _ Hr) as (Hh' & Hp' & Hn' & Hc').
      repeat split; try congruence.
      rewrite Hc', Hc, fold_left_app. reflexivity.
  - destruct e; unfold mret, M_ret; intros [= _ <-]; auto.
Qed.

(** C10: a recovery that returns an error leaves the current-version
    pointer, the file-number counter and the store of versions as they
    were, but not the compaction pointers: once the manifest was opened,
    they hold every update of every record decoded before the failure,
    whatever the failure (a read or decode error, a missing field, a
    comparer mismatch). *)
Theorem recover_failure_effect (st : state) (e : error) (st' : state)
    (Hfail : recover st = Done (Some e) st') :
  stVersion (sess st') = stVersion (sess st)
  /\ stFileNum (sess st') = stFileNum (sess st)
  /\ vers st' = vers st
  /\ forall file reader,
       GetManifest (stor (sess st)) = inl file ->
       Open (stor (sess st)) file = inl reader ->
       let strict := GetStrict (o (sess st)) StrictManifest in
       stCPtrs (sess st')
       = fold_left writePtr
           (pointerWrites strict (journal_NewReader reader strict true) emptyRecord)
           (stCPtrs (sess st)).
Proof using Type.
  assert (Hbody : exists e0, recoverBody st = Done (Some e0) st').
  { unfold recover, mbind, M_bind in Hfail.
    destruct (recoverBody st) as [err st1|]; [|discriminate].
    destruct (os_IsNotExist err) eqn:Hn.
    - unfold getSession, mret, M_ret in Hfail.
      destruct (GetFiles (stor (sess st1)) TypeAll) as [fs ?].
      destruct err as [e0|]; [|discriminate].
      destruct (0 <? len fs); injection Hfail as _ <-; eauto.
    - unfold mret, M_ret in Hfail. injection Hfail as -> <-. eauto. }
  clear Hfail. destruct Hbody as [e0 Hbody].
  unfold recoverBody, mbind, M_bind, getSession, version_NB in Hbody.
  destruct (GetManifest (stor (sess st))) as [file|e1] eqn:Hm.
  2: { unfold mret, M_ret in Hbody. injection Hbody as _ <-.
       repeat split. intros ? ? [=]. }
  destruct (Open (stor (sess st)) file) as [reader|e1] eqn:Ho.
  2: { unfold mret, M_ret in Hbody. injection Hbody as _ <-.
       repeat split. intros ? ? [= <-]. congruence. }
  destruct (replay _ _ _ _ st) as [r st1|] eqn:Hr; [|discriminate].
  apply replay_effect in Hr. destruct Hr as (Hh & Hp & Hn & Hc).
  assert (Hst : st' = st1).
  { destruct r as [e1|[staging rec]].
    - unfold mret, M_ret in Hbody. congruence.
    - destruct (validate rec _).
      + unfold mret, M_ret in Hbody. congruence.
      + unfold putSession, setVersion, setFileNum, mbind, M_bind, getSession,
          putSession, mret, M_ret in Hbody.
        destruct (staging_finish staging _); discriminate. }
  subst st1. repeat split; try assumption.
  intros file' reader' [= <-] Ho'. rewrite Ho in Ho'. injection Ho' as <-.
  exact Hc.
Qed.

(** ** Further properties of the planner and the job *)

(** X1: [pickCompaction] answers nil exactly when the current version has a
    score below 1 (a NaN score included) and no seek hint; the state is then
    left as it was. *)
Theorem pickCompaction_nil_iff (st st' : state) :
  pickCompaction st = Done None st'
  <-> st' = st
      /\ exists v, vers st !! stVersion (sess st) = Some v
                   /\ ge1 (cScore v) = false /\ cSeek v = None.
Proof using Type.
  split.
  - intros Hp. pose proof (pickCompaction_state _ _ _ Hp) as ->.
    split; [reflexivity|].
    unfold pickCompaction, mbind, M_bind in Hp.
    destruct (pickInput st) as [sel st1|] eqn:Hin; [|discriminate].
    destruct sel as [[[p level] t0]|].
    { destruct (buildCompaction p level t0 st1); [|discriminate].
      unfold mret, M_ret in Hp. discriminate. }
    unfold pickInput, mbind, M_bind, getSession, version_NB, load, at_index,
      mret, M_ret, panic in Hin.
    destruct (vers st !! stVersion (sess st)) as [v|]; [|discriminate].
    exists v. split; [reflexivity|].
    destruct (ge1 (cScore v)).
    + destruct (index (stCPtrs (sess st)) (cLevel v)) as [cp|]; [|discriminate].
      destruct (index (v_tables v) (cLevel v)) as [tt|]; [|discriminate].
      destruct (len (firstAfter (s_cmp (sess st)) cp tt) =? 0);
        [destruct (index tt 0)|]; discriminate.
    + destruct (cSeek v); [discriminate|]. split; reflexivity.
  - intros [-> (v & Hv & Hs & Hk)].
    unfold pickCompaction, pickInput, mbind, M_bind, getSession, version_NB, load.
    rewrite Hv, Hs, Hk. reflexivity.
Qed.

Lemma expand_fields c st c' st' :
  expand c st = Done c' st' ->
  c_version c' = c_version c /\ c_level c' = c_level c
  /\ gpidx c' = gpidx c /\ seenKey c' = seenKey c
  /\ overlappedBytes c' = overlappedBytes c /\ tPtrs c' = tPtrs c.
Proof using Type.
  unfold expand, mbind, M_bind, getSession, load, at_index, mret, M_ret, panic.
  destruct (vers st !! c_version c); [|discriminate].
  destruct (index (v_tables v) (c_level c)); [|discriminate].
  destruct (index (v_tables v) (c_level c + 1)); [|discriminate].
  destruct (c_tables c) as [a0 a1].
  destruct (getRange a0 (s_cmp (sess st))) as [mn mx].
  destruct (getRange _ _) as [amin amax].
  destruct (grow _ _ _ _ _ _ _ _ _ _) as [[[[[? ?] ?] ?] ?] ?].
  destruct (c_level c + 2 <? kNumLevels).
  - destruct (index (v_tables v) (c_level c + 2)); [|discriminate].
    intros [= <- _]. repeat split.
  - intros [= <- _]. repeat split.
Qed.

Lemma pickCompaction_fields st c st' :
  pickCompaction st = Done (Some c) st' ->
  c_version c = stVersion (sess st)
  /\ gpidx c = 0 /\ seenKey c = false /\ overlappedBytes c = 0.
Proof using Type.
  unfold pickCompaction, mbind, M_bind.
  destruct (pickInput st) as [sel st1|] eqn:Hin; [|discriminate].
  assert (Hst : st1 = st) by (eapply pickInput_state; exact Hin). subst st1.
  destruct sel as [[[p level] t0]|]; [|unfold mret, M_ret; discriminate].
  assert (Hp : p = stVersion (sess st)).
  { unfold pickInput, mbind, M_bind, getSession, version_NB, load, at_index,
      mret, M_ret, panic in Hin.
    destruct (vers st !! stVersion (sess st)) as [v|]; [|discriminate].
    destruct (ge1 (cScore v)).
    - destruct (index (stCPtrs (sess st)) (cLevel v)) as [cp|]; [|discriminate].
      destruct (index (v_tables v) (cLevel v)) as [tt|]; [|discriminate].
      destruct (len (firstAfter (s_cmp (sess st)) cp tt) =? 0);
        [destruct (index tt 0); [|discriminate]|]; congruence.
    - destruct (cSeek v); [congruence | discriminate]. }
  subst p.
  destruct (buildCompaction _ level t0 st) as [c0 st2|] eqn:Hb; [|discriminate].
  unfold mret, M_ret. intros [= -> _].
  unfold buildCompaction, mbind, M_bind, getSession, load in Hb.
  destruct (vers st !! stVersion (sess st)) as [v|]; [|discriminate].
  assert (Hex : exists t1, expand (with_tables0
             (newCompaction kNumLevels (stVersion (sess st)) level) t1) st
           = Done c st2).
  { destruct (level =? 0).
    - destruct (getRange t0 (s_cmp (sess st))) as [mn mx].
      unfold at_index, mret, M_ret, panic in Hb.
      destruct (index (v_tables v) 0); [|discriminate]. eauto.
    - unfold mret, M_ret in Hb. eauto. }
  destruct Hex as [t1 Hex]. apply expand_fields in Hex. simpl in Hex.
  destruct Hex as (H1 & _ & H3 & H4 & H5 & _). auto.
Qed.

Lemma passed_again icmp key rest :
  passed icmp key (drop (length (passed icmp key rest)) rest) = [].
Proof using Type.
  induction rest as [|g rest IH]; [reflexivity|]. simpl.
  destruct (0 <? iCompare icmp key (imax g)) eqn:Hc; simpl.
  - exact IH.
  - rewrite Hc. reflexivity.
Qed.

Lemma passed_length icmp key rest :
  (length (passed icmp key rest) <= length rest)%nat.
Proof using Type.
  induction rest as [|g rest IH]; simpl; [lia|].
  destruct (0 <? iCompare icmp key (imax g)); simpl; lia.
Qed.

Lemma shouldStopBefore_step key c st :
  0 <= gpidx c ->
  let sk := passed (s_cmp (sess st)) key (drop (Z.to_nat (gpidx c)) (gp c)) in
  let acc := accumulate (seenKey c) sk (overlappedBytes c) in
  let cut := kMaxGrandParentOverlapBytes <? acc in
  shouldStopBefore key c st
  = Done (cut,
          {| c_version := c_version c; c_level := c_level c;
             c_tables := c_tables c; gp := gp c; gpidx := gpidx c + len sk;
             seenKey := true; overlappedBytes := if cut then 0 else acc;
             c_min := c_min c; c_max := c_max c; tPtrs := tPtrs c |}) st.
Proof using Type.
  intros Hidx sk acc cut.
  unfold shouldStopBefore, mbind, M_bind, getSession, mret, M_ret.
  destruct (gpidx c <? 0) eqn:Hneg; [apply Z.ltb_lt in Hneg; lia|].
  rewrite stopLoop_passed. reflexivity.
Qed.

(** X2: a job just returned by [pickCompaction] points at the current
    version and starts with its grandparent cursor at 0, no key seen and an
    empty overlap counter, so the first key put to [shouldStopBefore] never
    cuts the output, whatever the grandparent files are. *)
Theorem pickCompaction_first_key (st st' : state) (c : compaction)
    (Hp : pickCompaction st = Done (Some c) st')
    (Hceil : 0 <= kMaxGrandParentOverlapBytes) :
  c_version c = stVersion (sess st)
  /\ gpidx c = 0 /\ seenKey c = false /\ overlappedBytes c = 0
  /\ forall key, exists c',
       shouldStopBefore key c st' = Done (false, c') st'
       /\ seenKey c' = true /\ overlappedBytes c' = 0.
Proof using Type.
  destruct (pickCompaction_fields _ _ _ Hp) as (Hv & Hi & Hk & Ho).
  repeat split; try assumption.
  intros key. rewrite shouldStopBefore_step by lia.
  rewrite Hk, Ho. unfold accumulate.
  assert (Hle : (kMaxGrandParentOverlapBytes <? 0) = false)
    by (apply Z.ltb_ge; lia).
  rewrite Hle. eexists. repeat split.
Qed.

(** X3: one call of [shouldStopBefore] leaves the state alone, never moves
    the cursor backwards nor past the end of the grandparent set, and leaves
    a counter that is at most the ceiling; asked again with the same key it
    answers false and changes nothing. *)
Theorem shouldStopBefore_invariant (key : iKey) (c c' : compaction)
    (st st' : state) (b : bool)
    (Hidx : 0 <= gpidx c) (Hceil : 0 <= kMaxGrandParentOverlapBytes)
    (Hrun : shouldStopBefore key c st = Done (b, c') st') :
  st' = st
  /\ gpidx c <= gpidx c'
  /\ (gpidx c <= len (gp c) -> gpidx c' <= len (gp c))
  /\ seenKey c' = true
  /\ overlappedBytes c' <= kMaxGrandParentOverlapBytes
  /\ shouldStopBefore key c' st = Done (false, c') st.
Proof using Type.
  rewrite shouldStopBefore_step in Hrun by exact Hidx.
  set (icmp := s_cmp (sess st)) in *.
  set (rest := drop (Z.to_nat (gpidx c)) (gp c)) in *.
  set (sk := passed icmp key rest) in *.
  set (acc := accumulate (seenKey c) sk (overlappedBytes c)) in *.
  injection Hrun as <- <- <-.
  split; [reflexivity|]. simpl.
  pose proof (passed_length icmp key rest) as Hlen. fold sk in Hlen.
  assert (Hrest : (length rest = length (gp c) - Z.to_nat (gpidx c))%nat)
    by (unfold rest; apply length_drop).
  split; [unfold len; lia|].
  split; [unfold len; intros; lia|].
  split; [reflexivity|].
  assert (Hob : (if kMaxGrandParentOverlapBytes <? acc then 0 else acc)
                <= kMaxGrandParentOverlapBytes).
  { destruct (kMaxGrandParentOverlapBytes <? acc) eqn:Hc; [lia|].
    apply Z.ltb_ge in Hc. exact Hc. }
  split; [exact Hob|].
  rewrite shouldStopBefore_step by (simpl; unfold len; lia).
  simpl. fold icmp.
  assert (Hdrop : drop (Z.to_nat (gpidx c + len sk)) (gp c)
                  = drop (length sk) rest).
  { unfold len, rest. rewrite Z2Nat.inj_add, Nat2Z.id by lia.
    rewrite drop_drop. reflexivity. }
  assert (Hpa : passed icmp key (drop (length sk) rest) = [])
    by (unfold sk; apply passed_again).
  rewrite Hdrop, !Hpa. cbn [accumulate fold_left].
  assert (Hno : (kMaxGrandParentOverlapBytes
                 <? (if kMaxGrandParentOverlapBytes <? acc then 0 else acc)) = false)
    by (apply Z.ltb_ge; exact Hob).
  rewrite Hno. unfold len. simpl. rewrite Z.add_0_r. reflexivity.
Qed.

(** What [expand] computed, read back from a run that returned. *)
Lemma expand_inv c st c' st' :
  expand c st = Done c' st' ->
  exists v vt0 vt1,
    vers st !! c_version c = Some v
    /\ index (v_tables v) (c_level c) = Some vt0
    /\ index (v_tables v) (c_level c + 1) = Some vt1
    /\ st' = st
    /\ let icmp := s_cmp (sess st) in
       let t0 := fst (c_tables c) in
       let r0 := getRange t0 icmp in
       let t1 := parentsOf icmp vt1 t0 (snd (c_tables c)) in
       let ra := getRange (t0 ++ t1) icmp in
       let g := grow icmp (c_level c) vt0 vt1 t0 t1 (fst r0) (snd r0)
                  (fst ra) (snd ra) in
       c_tables c' = (g.1.1.1.2, g.1.1.2)
       /\ c_min c' = g.1.1.1.1.1 /\ c_max c' = g.1.1.1.1.2
       /\ gp c' = (if c_level c + 2 <? kNumLevels then
                    match index (v_tables v) (c_level c + 2) with
                    | Some vt2 =>
                        getOverlaps vt2 (ukey g.1.2) (ukey g.2) (gp c) true
                          (cmp icmp)
                    | None => gp c
                    end
                  else gp c).
Proof using Type.
  unfold expand, mbind, M_bind, getSession, load, at_index, mret, M_ret, panic.
  destruct (vers st !! c_version c) as [v|] eqn:Hv; [|discriminate].
  destruct (index (v_tables v) (c_level c)) as [vt0|] eqn:H0; [|discriminate].
  destruct (index (v_tables v) (c_level c + 1)) as [vt1|] eqn:H1; [|discriminate].
  intros Hrun. exists v, vt0, vt1.
  split; [reflexivity|]. split; [exact H0|]. split; [exact H1|].
  assert (Hst : st' = st).
  { destruct (c_tables c) as [a0 a1].
    destruct (getRange a0 (s_cmp (sess st))) as [mn mx].
    destruct (getRange _ _) as [amin amax].
    destruct (grow _ _ _ _ _ _ _ _ _ _) as [[[[[? ?] ?] ?] ?] ?].
    destruct (c_level c + 2 <? kNumLevels);
      [destruct (index (v_tables v) (c_level c + 2)); [|discriminate]|];
      congruence. }
  split; [exact Hst|]. subst st'.
  unfold parentsOf.
  destruct (c_tables c) as [a0 a1]. simpl fst. simpl snd.
  destruct (getRange a0 (s_cmp (sess st))) as [mn mx]. simpl fst. simpl snd.
  destruct (getRange (a0 ++ _) (s_cmp (sess st))) as [amin amax].
  simpl fst. simpl snd. cbv zeta.
  destruct (grow _ _ _ _ _ _ _ _ _ _) as [[[[[mn' mx'] t0r] t1r] amin'] amax'].
  simpl.
  destruct (c_level c + 2 <? kNumLevels).
  - destruct (index (v_tables v) (c_level c + 2)); [|discriminate].
    injection Hrun as <-. repeat split.
  - injection Hrun as <-. repeat split.
Qed.

(** The result of the growth step is self-consistent whenever its input
    is. *)
Lemma grow_consistent icmp level vt0 vt1 t0 t1 mn mx amin amax :
  (mn, mx) = getRange t0 icmp ->
  (amin, amax) = getRange (t0 ++ t1) icmp ->
  t1 = parentsOf icmp vt1 t0 [] ->
  let g := grow icmp level vt0 vt1 t0 t1 mn mx amin amax in
  (g.1.1.1.1.1, g.1.1.1.1.2) = getRange g.1.1.1.2 icmp
  /\ (g.1.2, g.2) = getRange (g.1.1.1.2 ++ g.1.1.2) icmp
  /\ g.1.1.2 = parentsOf icmp vt1 g.1.1.1.2 [].
Proof using Type.
  intros Hr Ha Ht. cbv zeta. unfold grow.
  destruct (0 <? len t1); [|simpl; auto].
  set (e0 := getOverlaps vt0 (ukey amin) (ukey amax) [] (negb (level =? 0)) (cmp icmp)).
  destruct ((len t0 <? len e0)
            && (add64 (tFiles_size t1) (tFiles_size e0) <? kExpCompactionMaxBytes));
    [|simpl; auto].
  destruct (getRange e0 icmp) as [xmin xmax] eqn:Hx.
  set (e1 := getOverlaps vt1 (ukey xmin) (ukey xmax) [] true (cmp icmp)).
  destruct (len e1 =? len t1); [|simpl; auto].
  destruct (getRange (e0 ++ e1) icmp) as [amin' amax'] eqn:Hxa. simpl.
  repeat split; [congruence | congruence |].
  unfold parentsOf. rewrite Hx. reflexivity.
Qed.


(** X4: a job that enters [expand] without parent files leaves it
    self-consistent: its key range is the range of its level-L files, its
    parent set is exactly what the level L+1 gives for that range, and its
    grandparent set is what level L+2 gives for the range of both sets, or
    is left alone when there is no level L+2. *)
Theorem expand_consistent (c c' : compaction) (st st' : state) (v : version)
    (vt1 : tFiles)
    (Hv : vers st !! c_version c = Some v)
    (H1 : index (v_tables v) (c_level c + 1) = Some vt1)
    (Hempty : snd (c_tables c) = [])
    (Hrun : expand c st = Done c' st') :
  let icmp := s_cmp (sess st) in
  let ra := getRange (fst (c_tables c') ++ snd (c_tables c')) icmp in
  (c_min c', c_max c') = getRange (fst (c_tables c')) icmp
  /\ snd (c_tables c') = parentsOf icmp vt1 (fst (c_tables c')) []
  /\ (forall vt2, c_level c + 2 < kNumLevels ->
        index (v_tables v) (c_level c + 2) = Some vt2 ->
        gp c' = getOverlaps vt2 (ukey (fst ra)) (ukey (snd ra)) (gp c) true
                  (cmp icmp))
  /\ (kNumLevels <= c_level c + 2 -> gp c' = gp c).
Proof using Type.
  intros icmp ra.
  destruct (expand_inv _ _ _ _ Hrun)
    as (v0 & vt0 & vt1' & Hv0 & H0 & H1' & _ & Hres).
  rewrite Hv in Hv0. injection Hv0 as <-.
  rewrite H1 in H1'. injection H1' as <-.
  cbv zeta in Hres. fold icmp in Hres. rewrite Hempty in Hres.
  set (t0 := fst (c_tables c)) in *.
  set (t1 := parentsOf icmp vt1 t0 []) in *.
  pose proof (grow_consistent icmp (c_level c) vt0 vt1 t0 t1
                (fst (getRange t0 icmp)) (snd (getRange t0 icmp))
                (fst (getRange (t0 ++ t1) icmp)) (snd (getRange (t0 ++ t1) icmp)))
    as Hg.
  cbv zeta in Hg.
  specialize (Hg (eq_sym (surjective_pairing _)) (eq_sym (surjective_pairing _))
               eq_refl).
  set (g := grow icmp (c_level c) vt0 vt1 t0 t1 _ _ _ _) in *.
  destruct Hres as (Ht & Hmn & Hmx & Hgp).
  destruct Hg as (Hg1 & Hg2 & Hg3).
  subst ra. rewrite Ht, Hmn, Hmx. simpl fst. simpl snd.
  split; [exact Hg1|]. split; [exact Hg3|]. split.
  - intros vt2 Hl H2. rewrite Hgp.
    apply Z.ltb_lt in Hl. rewrite Hl, H2. rewrite <- Hg2. reflexivity.
  - intros Hl. rewrite Hgp.
    assert (Hf : (c_level c + 2 <? kNumLevels) = false) by (apply Z.ltb_ge; lia).
    rewrite Hf. reflexivity.
Qed.



Lemma len_zero {A} (l : list A) : (len l =? 0) = true <-> l = [].
Proof using Type.
  unfold len. rewrite Z.eqb_eq. destruct l; simpl; split; intros H;
    try reflexivity; try discriminate; lia.
Qed.


(** X7: on the last level [getCompactionRange] cannot build a job: it
    answers nil when no file overlaps the range and otherwise panics in
    [expand], which reads the level below the last one. *)
Theorem getCompactionRange_last_level (min max : byteSlice) (st : state)
    (v : version)
    (Hv : vers st !! stVersion (sess st) = Some v)
    (Hlen : len (v_tables v) = kNumLevels)
    (Hpos : 1 <= kNumLevels) :
  let level := kNumLevels - 1 in
  exists vt,
    index (v_tables v) level = Some vt
    /\ let t0 := getOverlaps vt min max [] (negb (level =? 0))
                   (cmp (s_cmp (sess st))) in
       (t0 = [] -> getCompactionRange level min max st = Done None st)
       /\ (t0 <> [] ->
           getCompactionRange level min max st = Panic "index out of range" st).
Proof using Type.
  intros level.
  destruct (index_in_range (v_tables v) level) as [vt Hvt]; [subst level; lia|].
  exists vt. split; [exact Hvt|]. cbv zeta.
  assert (Hout : index (v_tables v) (level + 1) = None).
  { unfold index. destruct (0 <=? level + 1); [|reflexivity].
    apply lookup_ge_None_2. unfold len in Hlen. subst level. lia. }
  unfold getCompactionRange, mbind, M_bind, getSession, version_NB, load,
    at_index, mret, M_ret, panic.
  rewrite Hv, Hvt. split.
  - intros ->. reflexivity.
  - intros Hne.
    destruct (len (getOverlaps vt min max [] (negb (level =? 0))
                     (cmp (s_cmp (sess st)))) =? 0) eqn:Hz;
      [apply len_zero in Hz; congruence|].
    unfold expand, mbind, M_bind, getSession, load, at_index, mret, M_ret, panic.
    simpl. rewrite Hv, Hvt, Hout. reflexivity.
Qed.

(** *** isBaseLevelForKey *)

Lemma baseScan_spec ucmp key rest ptr :
  exists skipped rest',
    rest = skipped ++ rest'
    /\ snd (baseScan ucmp key rest ptr) = ptr + len skipped
    /\ Forall (keyPast ucmp key) skipped
    /\ (fst (baseScan ucmp key rest ptr) = true ->
        exists t r, rest' = t :: r /\ keyWithin ucmp key t)
    /\ (fst (baseScan ucmp key rest ptr) = false ->
        match rest' with
        | [] => True
        | t :: _ => keyBefore ucmp key t
        end).
Proof using Type.
  revert ptr. induction rest as [|t rest IH]; intros ptr.
  - exists [], []. simpl. unfold len. simpl.
    split; [reflexivity|]. split; [lia|]. split; [constructor|].
    split; [discriminate | trivial].
  - simpl. destruct (Compare ucmp key (ukey (imax t)) <=? 0) eqn:Hmax.
    + apply Z.leb_le in Hmax.
      destruct (0 <=? Compare ucmp key (ukey (imin t))) eqn:Hmin.
      * apply Z.leb_le in Hmin. exists [], (t :: rest). simpl. unfold len. simpl.
        split; [reflexivity|]. split; [lia|]. split; [constructor|].
        split; [|discriminate].
        intros _. exists t, rest. split; [reflexivity|]. split; assumption.
      * apply Z.leb_gt in Hmin. exists [], (t :: rest). simpl. unfold len. simpl.
        split; [reflexivity|]. split; [lia|]. split; [constructor|].
        split; [discriminate|]. intros _. split; assumption.
    + apply Z.leb_gt in Hmax.
      destruct (IH (ptr + 1)) as (sk & rest' & -> & Hp & Hall & Ht & Hf).
      exists (t :: sk), rest'. split; [reflexivity|].
      split; [rewrite Hp; unfold len; simpl length; lia|].
      split; [constructor; [exact Hmax | exact Hall]|].
      split; assumption.
Qed.

Lemma baseLevels_frame ucmp key levels : forall i ptrs b ptrs',
  baseLevels ucmp key levels i ptrs = Some (b, ptrs') ->
  length ptrs' = length ptrs
  /\ (forall k, (k < i)%nat -> ptrs' !! k = ptrs !! k)
  /\ (forall k a, ptrs !! k = Some a ->
        exists a', ptrs' !! k = Some a' /\ a <= a').
Proof using Type.
  induction levels as [|lv levels IH]; intros i ptrs b ptrs'; simpl.
  - intros [= _ <-]. repeat split. intros k a Hk. exists a. split; [exact Hk | lia].
  - destruct (ptrs !! i) as [ptr|] eqn:Hi; [|discriminate].
    destruct (ptr <? 0) eqn:Hneg; [discriminate|].
    destruct (baseScan ucmp key (drop (Z.to_nat ptr) lv) ptr) as [found ptr2] eqn:Hs.
    destruct (baseScan_spec ucmp key (drop (Z.to_nat ptr) lv) ptr)
      as (sk & rest' & _ & Hp & _).
    rewrite Hs in Hp. simpl in Hp.
    assert (Hone : forall k a, ptrs !! k = Some a ->
              exists a', <[i := ptr2]> ptrs !! k = Some a' /\ a <= a').
    { intros k a Hk. destruct (decide (k = i)) as [->|Hne].
      - rewrite list_lookup_insert_eq by (eapply lookup_lt_Some; exact Hi).
        exists ptr2. split; [reflexivity|].
        rewrite Hi in Hk. injection Hk as <-. unfold len in Hp. lia.
      - rewrite list_lookup_insert_ne by congruence. exists a. split; [exact Hk | lia]. }
    destruct found.
    + intros [= _ <-]. rewrite length_insert. split; [reflexivity|].
      split; [|exact Hone].
      intros k Hk. apply list_lookup_insert_ne. lia.
    + intros Hrec. destruct (IH _ _ _ _ Hrec) as (Hl & Hlow & Hmono).
      rewrite length_insert in Hl. split; [exact Hl|]. split.
      * intros k Hk. rewrite Hlow by lia. apply list_lookup_insert_ne. lia.
      * intros k a Hk. destruct (Hone k a Hk) as (a1 & Ha1 & Hle1).
        destruct (Hmono k a1 Ha1) as (a2 & Ha2 & Hle2).
        exists a2. split; [exact Ha2 | lia].
Qed.

Lemma baseLevels_false ucmp key levels : forall i ptrs ptrs',
  baseLevels ucmp key levels i ptrs = Some (false, ptrs') ->
  exists j lv t, levels !! j = Some lv /\ t ∈ lv /\ keyWithin ucmp key t.
Proof using Type.
  induction levels as [|lv levels IH]; intros i ptrs ptrs'; simpl; [discriminate|].
  destruct (ptrs !! i) as [ptr|]; [|discriminate].
  destruct (ptr <? 0); [discriminate|].
  destruct (baseScan ucmp key (drop (Z.to_nat ptr) lv) ptr) as [found ptr2] eqn:Hs.
  destruct (baseScan_spec ucmp key (drop (Z.to_nat ptr) lv) ptr)
    as (sk & rest' & Hsplit & _ & _ & Ht & _).
  rewrite Hs in Ht. simpl in Ht.
  destruct found.
  - intros _. destruct (Ht eq_refl) as (t & r & -> & Hw).
    exists 0%nat, lv, t. split; [reflexivity|]. split; [|exact Hw].
    assert (Hin : t ∈ drop (Z.to_nat ptr) lv).
    { rewrite Hsplit. apply elem_of_app. right. left. }
    apply list_elem_of_lookup in Hin. destruct Hin as [n Hn].
    rewrite lookup_drop in Hn. eapply list_elem_of_lookup_2. exact Hn.
  - intros Hrec. destruct (IH _ _ _ Hrec) as (j & lv' & t & Hj & Hin & Hw).
    exists (S j), lv', t. auto.
Qed.

Lemma baseLevels_true ucmp key levels : forall i ptrs ptrs',
  baseLevels ucmp key levels i ptrs = Some (true, ptrs') ->
  forall j lv, levels !! j = Some lv ->
    exists a a', ptrs !! (i + j)%nat = Some a /\ ptrs' !! (i + j)%nat = Some a'
                 /\ 0 <= a /\ scanned ucmp key lv a a'.
Proof using Type.
  induction levels as [|lv levels IH]; intros i ptrs ptrs'; simpl.
  - intros _ j lv Hj. rewrite lookup_nil in Hj. discriminate.
  - destruct (ptrs !! i) as [ptr|] eqn:Hi; [|discriminate].
    destruct (ptr <? 0) eqn:Hneg; [discriminate|]. apply Z.ltb_ge in Hneg.
    destruct (baseScan ucmp key (drop (Z.to_nat ptr) lv) ptr) as [found ptr2] eqn:Hs.
    destruct (baseScan_spec ucmp key (drop (Z.to_nat ptr) lv) ptr)
      as (sk & rest' & Hsplit & Hp & Hall & _ & Hf).
    rewrite Hs in Hp, Hf. simpl in Hp, Hf.
    destruct found; [discriminate|].
    intros Hrec j lv' Hj.
    destruct (baseLevels_frame _ _ _ _ _ _ _ Hrec) as (_ & Hlow & _).
    destruct j as [|j]; simpl in Hj.
    + injection Hj as <-. rewrite Nat.add_0_r.
      exists ptr, ptr2. split; [exact Hi|]. split.
      * rewrite Hlow by lia.
        apply list_lookup_insert_eq. eapply lookup_lt_Some. exact Hi.
      * split; [exact Hneg|]. exists sk, rest'.
        split; [exact Hsplit|]. split; [exact Hp|]. split; [exact Hall|].
        apply Hf. reflexivity.
    + destruct (IH _ _ _ Hrec j lv' Hj) as (a & a' & Ha & Ha' & Hpos & Hsc).
      replace (i + S j)%nat with (S i + j)%nat by lia.
      exists a, a'. split; [|auto].
      rewrite list_lookup_insert_ne in Ha by lia. exact Ha.
Qed.

Lemma isBaseLevelForKey_inv key c st b c' st' v :
  vers st !! c_version c = Some v ->
  isBaseLevelForKey key c st = Done (b, c') st' ->
  st' = st /\ 0 <= c_level c + 2
  /\ c' = with_tPtrs c (tPtrs c')
  /\ baseLevels (cmp (s_cmp (sess st))) key
       (drop (Z.to_nat (c_level c + 2)) (v_tables v)) 0 (tPtrs c)
     = Some (b, tPtrs c').
Proof using Type.
  intros Hv.
  unfold isBaseLevelForKey, mbind, M_bind, getSession, load, mret, M_ret, panic.
  rewrite Hv.
  destruct ((0 <=? c_level c + 2) && (c_level c + 2 <=? len (v_tables v))) eqn:Hb;
    [|discriminate].
  apply andb_true_iff in Hb. destruct Hb as [Hlo _]. apply Z.leb_le in Hlo.
  destruct (baseLevels _ _ _ _ _) as [[b0 ptrs]|]; [|discriminate].
  intros [= <- <- <-]. repeat split; assumption.
Qed.

(** X8: when [isBaseLevelForKey] answers false, some file of a level below
    the parent level really holds [key] in its user-key range. *)
Theorem isBaseLevelForKey_false (key : byteSlice) (c c' : compaction)
    (st st' : state) (v : version)
    (Hv : vers st !! c_version c = Some v)
    (Hrun : isBaseLevelForKey key c st = Done (false, c') st') :
  exists lvl lv t,
    c_level c + 2 <= lvl
    /\ index (v_tables v) lvl = Some lv
    /\ t ∈ lv
    /\ keyWithin (cmp (s_cmp (sess st))) key t.
Proof using Type.
  destruct (isBaseLevelForKey_inv _ _ _ _ _ _ _ Hv Hrun) as (_ & Hlo & _ & Hb).
  destruct (baseLevels_false _ _ _ _ _ _ Hb) as (j & lv & t & Hj & Hin & Hw).
  exists (c_level c + 2 + Z.of_nat j), lv, t.
  split; [lia|]. split; [|auto].
  unfold index. destruct (0 <=? c_level c + 2 + Z.of_nat j) eqn:H0;
    [|apply Z.leb_gt in H0; lia].
  rewrite lookup_drop in Hj.
  rewrite Z2Nat.inj_add, Nat2Z.id by lia. exact Hj.
Qed.

(** X9: [isBaseLevelForKey] touches nothing but the job's per-level cursors,
    keeps their number, and never moves a cursor backwards. *)
Theorem isBaseLevelForKey_cursors (key : byteSlice) (c c' : compaction)
    (st st' : state) (v : version) (b : bool)
    (Hv : vers st !! c_version c = Some v)
    (Hrun : isBaseLevelForKey key c st = Done (b, c') st') :
  st' = st
  /\ c' = with_tPtrs c (tPtrs c')
  /\ length (tPtrs c') = length (tPtrs c)
  /\ forall k a, tPtrs c !! k = Some a ->
       exists a', tPtrs c' !! k = Some a' /\ a <= a'.
Proof using Type.
  destruct (isBaseLevelForKey_inv _ _ _ _ _ _ _ Hv Hrun) as (Hst & _ & Hc & Hb).
  destruct (baseLevels_frame _ _ _ _ _ _ _ Hb) as (Hl & _ & Hmono).
  repeat split; assumption.
Qed.

(** X10: when [isBaseLevelForKey] answers true, every level below the parent
    level has been scanned from its old cursor to its new one: the files in
    between all end before [key], and the file at the new cursor, if any,
    starts after [key]. *)
Theorem isBaseLevelForKey_true (key : byteSlice) (c c' : compaction)
    (st st' : state) (v : version)
    (Hv : vers st !! c_version c = Some v)
    (Hrun : isBaseLevelForKey key c st = Done (true, c') st') :
  forall (j : nat) (lv : tFiles),
    index (v_tables v) (c_level c + 2 + Z.of_nat j) = Some lv ->
    exists a a',
      tPtrs c !! j = Some a /\ tPtrs c' !! j = Some a' /\ 0 <= a
      /\ scanned (cmp (s_cmp (sess st))) key lv a a'.
Proof using Type.
  destruct (isBaseLevelForKey_inv _ _ _ _ _ _ _ Hv Hrun) as (_ & Hlo & _ & Hb).
  intros j lv Hj.
  apply (baseLevels_true _ _ _ _ _ _ Hb j lv).
  rewrite lookup_drop. unfold index in Hj.
  destruct (0 <=? c_level c + 2 + Z.of_nat j); [|discriminate].
  rewrite Z2Nat.inj_add, Nat2Z.id in Hj by lia. exact Hj.
Qed.

(** *** newIterator *)

(** X11: [newIterator] merges one iterator per level-0 input file and one
    indexed iterator per non-empty input set of a deeper level, none for an
    empty set; for a job at a level of the tree (level 0 or above) their
    number never exceeds the capacity the slice was made with. *)
Theorem newIterator_count (c : compaction) (st : state)
    (Hlevel : 0 <= c_level c) :
  let its := inputIterators (sess st) c in
  let one (tt : tFiles) := if len tt =? 0 then 0 else 1 in
  newIterator c st = Done (NewMergedIterator its (s_cmp (sess st)) true) st
  /\ len its
     = (if c_level c =? 0 then len (fst (c_tables c)) else one (fst (c_tables c)))
       + one (snd (c_tables c))
  /\ len its <= iteratorCap c.
Proof using Type.
  intros its one. split; [reflexivity|].
  assert (Hcount : len its
     = (if c_level c =? 0 then len (fst (c_tables c)) else one (fst (c_tables c)))
       + one (snd (c_tables c))).
  { subst its one. unfold inputIterators, iteratorsFor, len.
    rewrite length_app, Nat2Z.inj_add. fold (len (fst (c_tables c))).
    fold (len (snd (c_tables c))).
    rewrite Z.add_0_r.
    assert (H1 : (c_level c + 1 =? 0) = false) by (apply Z.eqb_neq; lia).
    rewrite H1.
    destruct (len (c_tables c).1 =? 0) eqn:Ha; destruct (len (c_tables c).2 =? 0);
      destruct (c_level c =? 0); simpl; rewrite ?length_map;
      try apply Z.eqb_eq in Ha; unfold len in *; lia. }
  split; [exact Hcount|]. rewrite Hcount. subst one. unfold iteratorCap.
  destruct (c_level c =? 0); destruct (len (c_tables c).1 =? 0);
    destruct (len (c_tables c).2 =? 0); unfold len; lia.
Qed.

(** *** newSession *)

(** X12: [newSession] fails, without a session, exactly on a nil storage
    (with [os.ErrInvalid]) or on a failing lock (with the lock's error).
    The session it otherwise returns holds the storage, has no manifest
    writer yet, points at an empty version, and has nothing to compact:
    [pickCompaction] answers nil on it. *)
Theorem newSession_fresh (sto : option Storage) (opts : Options) :
  (forall err, newSession sto opts = (None, err) ->
     (sto = None /\ err = Some ErrInvalid)
     \/ (exists s0 e, sto = Some s0 /\ stor_Lock s0 = inr e /\ err = Some e))
  /\ (forall st err, newSession sto opts = (Some st, err) ->
       err = None
       /\ (exists s0 h, sto = Some s0 /\ stor_Lock s0 = inl h
                        /\ stor (sess st) = s0)
       /\ manifest (sess st) = None
       /\ vers st !! stVersion (sess st) = Some emptyVersion
       /\ len (stCPtrs (sess st)) = Z.max 0 kNumLevels
       /\ pickCompaction st = Done None st).
Proof using Type.
  unfold newSession. split.
  - intros err. destruct sto as [s0|].
    + destruct (stor_Lock s0) as [h|e] eqn:Hl.
      * destruct (setOptions opts). discriminate.
      * intros [= <-]. right. eauto.
    + intros [= <-]. left. auto.
  - intros st err. destruct sto as [s0|]; [|discriminate].
    destruct (stor_Lock s0) as [h|e] eqn:Hl; [|discriminate].
    destruct (setOptions opts) as [o' icmp]. intros [= <- <-].
    split; [reflexivity|]. split; [exists s0, h; auto|].
    split; [reflexivity|]. split; [reflexivity|]. split.
    + simpl. unfold len. rewrite length_replicate. lia.
    + reflexivity.
Qed.

(** *** recover, further *)

Lemma savePointers_session cps st :
  match savePointers cps st with
  | Done _ st' =>
      stor (sess st') = stor (sess st) /\ o (sess st') = o (sess st)
      /\ s_cmp (sess st') = s_cmp (sess st)
      /\ length (stCPtrs (sess st')) = length (stCPtrs (sess st))
  | Panic _ _ => True
  end.
Proof using Type.
  revert st. induction cps as [|rp cps IH]; intros st; simpl.
  - unfold mret, M_ret. auto.
  - unfold mbind, M_bind, getSession, putSession, panic.
    destruct (store (stCPtrs (sess st)) (cp_level rp) (cp_key rp)) as [a|] eqn:Hst;
      [|exact I].
    specialize (IH {| sess := with_stCPtrs (sess st) a; vers := vers st |}).
    destruct (savePointers cps _) as [u st'|]; [|exact I].
    simpl in IH. destruct IH as (H1 & H2 & H3 & H4).
    repeat split; try assumption.
    rewrite H4. unfold store in Hst.
    destruct ((0 <=? cp_level rp) && (cp_level rp <? len (stCPtrs (sess st))));
      [|discriminate].
    injection Hst as <-. apply length_insert.
Qed.

Lemma replay_session strict jr staging rec st r st' :
  replay strict jr staging rec st = Done r st' ->
  stor (sess st') = stor (sess st) /\ o (sess st') = o (sess st)
  /\ s_cmp (sess st') = s_cmp (sess st).
Proof using Type.
  revert staging rec st. induction jr as [|[r0|e] jr IH]; intros staging rec st; simpl.
  - unfold mret, M_ret. intros [= _ <-]. auto.
  - destruct (decode rec r0) as [rec' [e|]].
    + destruct strict.
      * unfold mret, M_ret. intros [= _ <-]. auto.
      * apply IH.
    + unfold mbind, M_bind.
      pose proof (savePointers_session (compactionPointers rec') st) as Hs.
      destruct (savePointers (compactionPointers rec') st) as [u st1|]; [|discriminate].
      destruct Hs as (H1 & H2 & H3 & _). intros Hr.
      destruct (IH _ _ _ Hr) as (H1' & H2' & H3').
      repeat split; congruence.
  - destruct e; unfold mret, M_ret; intros [= _ <-]; auto.
Qed.

(** What the body of [recover] did when it returned an error. *)
Lemma recoverBody_failure st e st' :
  recoverBody st = Done (Some e) st' ->
  stor (sess st') = stor (sess st).
Proof using Type.
  unfold recoverBody, mbind, M_bind, getSession, version_NB.
  destruct (GetManifest (stor (sess st))) as [file|e1];
    [|unfold mret, M_ret; intros [= _ <-]; reflexivity].
  destruct (Open (stor (sess st)) file) as [reader|e1];
    [|unfold mret, M_ret; intros [= _ <-]; reflexivity].
  destruct (replay _ _ _ _ st) as [r st1|] eqn:Hr; [|discriminate].
  apply replay_session in Hr. destruct Hr as (Hs & _).
  destruct r as [e1|[staging rec]].
  - unfold mret, M_ret. intros [= _ <-]. exact Hs.
  - destruct (validate rec _).
    + unfold mret, M_ret. intros [= _ <-]. exact Hs.
    + unfold putSession, setVersion, setFileNum, mbind, M_bind, getSession,
        putSession, mret, M_ret.
      destruct (staging_finish staging _); discriminate.
Qed.

(** X13: [recover] never hands a not-exist error to its caller while the
    storage lists a file, wherever the error came from (the manifest lookup,
    opening the file, or the journal reader): such an error comes out only
    when the storage lists nothing. *)
Theorem recover_not_exist_means_empty (st st' : state) (e : error)
    (Hrun : recover st = Done (Some e) st')
    (Hne : os_IsNotExist (Some e) = true) :
  fst (GetFiles (stor (sess st)) TypeAll) = [].
Proof using Type.
  unfold recover, mbind, M_bind in Hrun.
  destruct (recoverBody st) as [err st1|] eqn:Hb; [|discriminate].
  destruct (os_IsNotExist err) eqn:Hn.
  - destruct err as [e1|]; [|discriminate].
    apply recoverBody_failure in Hb.
    unfold getSession, mret, M_ret in Hrun. rewrite Hb in Hrun.
    destruct (GetFiles (stor (sess st)) TypeAll) as [fs ?]. simpl.
    destruct (0 <? len fs) eqn:Hl.
    + injection Hrun as <- _. discriminate.
    + apply Z.ltb_ge in Hl. destruct fs; [reflexivity|].
      unfold len in Hl. simpl in Hl. lia.
  - unfold mret, M_ret in Hrun. injection Hrun as -> _. congruence.
Qed.

(** X14: [recover] returns nil only after a replay that ran to the end of
    the journal and whose record names the session's comparer and carries
    the next file number, the journal number and the sequence number. *)
Theorem recover_success_complete (st st' : state)
    (Hrun : recover st = Done None st') :
  exists file reader staging rec st1,
    GetManifest (stor (sess st)) = inl file
    /\ Open (stor (sess st)) file = inl reader
    /\ (let strict := GetStrict (o (sess st)) StrictManifest in
        replay strict (journal_NewReader reader strict true)
          (newStaging (stVersion (sess st))) emptyRecord st
        = Done (inr (staging, rec)) st1)
    /\ has rec recComparer = true
    /\ comparer rec = Name (cmp (s_cmp (sess st)))
    /\ has rec recNextNum = true
    /\ has rec recJournalNum = true
    /\ has rec recSeq = true.
Proof using Type.
  assert (Hbody : exists st1, recoverBody st = Done None st1).
  { unfold recover, mbind, M_bind in Hrun.
    destruct (recoverBody st) as [err st1|]; [|discriminate].
    destruct (os_IsNotExist err) eqn:Hn.
    - destruct err; [|discriminate].
      unfold getSession, mret, M_ret in Hrun.
      destruct (GetFiles (stor (sess st1)) TypeAll) as [fs ?].
      destruct (0 <? len fs); discriminate.
    - unfold mret, M_ret in Hrun. injection Hrun as -> _. eauto. }
  clear Hrun. destruct Hbody as [st2 Hbody].
  unfold recoverBody, mbind, M_bind, getSession, version_NB in Hbody.
  destruct (GetManifest (stor (sess st))) as [file|e1] eqn:Hm;
    [|unfold mret, M_ret in Hbody; discriminate].
  destruct (Open (stor (sess st)) file) as [reader|e1] eqn:Ho;
    [|unfold mret, M_ret in Hbody; discriminate].
  destruct (replay _ _ _ _ st) as [r st1|] eqn:Hr; [|discriminate].
  destruct r as [e1|[staging rec]]; [unfold mret, M_ret in Hbody; discriminate|].
  pose proof (replay_session _ _ _ _ _ _ _ Hr) as (_ & _ & Hc).
  exists file, reader, staging, rec, st1.
  split; [reflexivity|]. split; [exact Ho|]. split; [exact Hr|].
  destruct (validate rec (Name (cmp (s_cmp (sess st1))))) eqn:Hval;
    [unfold mret, M_ret in Hbody; discriminate|].
  rewrite Hc in Hval. unfold validate in Hval.
  destruct (has rec recComparer); [|discriminate].
  destruct (bool_decide (comparer rec = Name (cmp (s_cmp (sess st))))) eqn:Hn;
    [|discriminate].
  apply bool_decide_eq_true in Hn.
  destruct (has rec recNextNum); [|discriminate].
  destruct (has rec recJournalNum); [|discriminate].
  destruct (has rec recSeq); [|discriminate].
  repeat split; assumption.
Qed.

Lemma savePointers_out_of_range cps st rp :
  rp ∈ cps ->
  ~ (0 <= cp_level rp < len (stCPtrs (sess st))) ->
  exists st', savePointers cps st = Panic "index out of range" st'.
Proof using Type.
  revert st. induction cps as [|rp0 cps IH]; intros st Hin Hout.
  - apply elem_of_nil in Hin. contradiction.
  - simpl. unfold mbind, M_bind, getSession, putSession, panic.
    destruct (store (stCPtrs (sess st)) (cp_level rp0) (cp_key rp0)) as [a|] eqn:Hst;
      [|eexists; reflexivity].
    assert (Hlen : len a = len (stCPtrs (sess st))).
    { unfold store in Hst.
      destruct ((0 <=? cp_level rp0) && (cp_level rp0 <? len (stCPtrs (sess st)))) eqn:Hb;
        [|discriminate].
      injection Hst as <-. unfold len. rewrite length_insert. reflexivity. }
    apply elem_of_cons in Hin. destruct Hin as [->|Hin].
    + exfalso. apply Hout. unfold store in Hst.
      destruct ((0 <=? cp_level rp0) && (cp_level rp0 <? len (stCPtrs (sess st)))) eqn:Hb;
        [|discriminate].
      apply andb_true_iff in Hb. destruct Hb as [Hlo Hhi].
      apply Z.leb_le in Hlo. apply Z.ltb_lt in Hhi. lia.
    + destruct (IH {| sess := with_stCPtrs (sess st) a; vers := vers st |} Hin)
        as [st' Hp]; [simpl; rewrite Hlen; exact Hout|].
      rewrite Hp. eexists; reflexivity.
Qed.

(** X15: a manifest whose first record decodes and carries a compaction
    pointer for a level outside the pointer array makes [recover] panic on
    the array index, under strict and lenient validation alike; no error is
    returned. *)
Theorem recover_pointer_level_panics (st : state) (file : File)
    (reader : Reader) (r : bytes) (jr : list (bytes + error))
    (rec : sessionRecord) (rp : cpRecord)
    (Hm : GetManifest (stor (sess st)) = inl file)
    (Ho : Open (stor (sess st)) file = inl reader)
    (Hj : journal_NewReader reader (GetStrict (o (sess st)) StrictManifest) true
          = inl r :: jr)
    (Hd : decode emptyRecord r = (rec, None))
    (Hin : rp ∈ compactionPointers rec)
    (Hout : ~ (0 <= cp_level rp < len (stCPtrs (sess st)))) :
  exists st', recover st = Panic "index out of range" st'.
Proof using Type.
  destruct (savePointers_out_of_range _ st rp Hin Hout) as [st' Hp].
  exists st'.
  unfold recover, recoverBody, mbind, M_bind, getSession, version_NB.
  rewrite Hm, Ho, Hj. simpl. rewrite Hd.
  unfold mbind, M_bind. rewrite Hp. reflexivity.
Qed.

(** *** commit, pickCompaction and recover, further *)



Lemma firstAfter_skip icmp cp pre rest :
  Forall (fun x => ~ qualifies icmp cp x) pre ->
  firstAfter icmp cp (pre ++ rest) = firstAfter icmp cp rest.
Proof using Type.
  induction 1 as [|x pre Hx _ IH]; [reflexivity|]. simpl.
  destruct (isNil cp || (0 <? iCompare icmp (imax x) cp)) eqn:Hq; [|exact IH].
  apply qualifies_test in Hq. contradiction.
Qed.

(** X17: the round-robin step. With a score of at least 1 and the level's
    pointer holding the largest key of a file [t] of the level, when no file
    up to [t] lies above that key the pick is the file right after [t] if
    that one lies above it, and the first file of the level if [t] is the
    last one. *)
Theorem pickInput_successor (st : state) (v : version) (pre post : tFiles)
    (t : tFile)
    (Hv : vers st !! stVersion (sess st) = Some v)
    (Hs : ge1 (cScore v) = true)
    (Hcp : index (stCPtrs (sess st)) (cLevel v) = Some (imax t))
    (Htt : index (v_tables v) (cLevel v) = Some (pre ++ t :: post))
    (Hkey : imax t <> None)
    (Hsorted : Forall (fun x => iCompare (s_cmp (sess st)) (imax x) (imax t) <= 0)
                 (pre ++ [t])) :
  (forall u post', post = u :: post' ->
     0 < iCompare (s_cmp (sess st)) (imax u) (imax t) ->
     pickInput st = Done (Some (stVersion (sess st), cLevel v, [u])) st)
  /\ (post = [] ->
      exists first, (pre ++ [t]) !! 0%nat = Some first
        /\ pickInput st = Done (Some (stVersion (sess st), cLevel v, [first])) st).
Proof using Type.
  assert (Hnot : Forall (fun x => ~ qualifies (s_cmp (sess st)) (imax t) x)
                   (pre ++ [t])).
  { eapply Forall_impl; [exact Hsorted|]. intros x Hx Hq. cbv beta in Hx.
    destruct Hq as [Hn|Hq]; [congruence | lia]. }
  assert (Hrun : forall tt, index (v_tables v) (cLevel v) = Some tt ->
    pickInput st
    = (if len (firstAfter (s_cmp (sess st)) (imax t) tt) =? 0
       then match index tt 0 with
            | Some f => Done (Some (stVersion (sess st), cLevel v, [f])) st
            | None => Panic "index out of range" st
            end
       else Done (Some (stVersion (sess st), cLevel v,
                        firstAfter (s_cmp (sess st)) (imax t) tt)) st)).
  { intros tt Htt'.
    unfold pickInput, mbind, M_bind, getSession, version_NB, load, at_index,
      mret, M_ret, panic.
    rewrite Hv, Hs, Hcp, Htt'.
    destruct (len (firstAfter (s_cmp (sess st)) (imax t) tt) =? 0); [|reflexivity].
    destruct (index tt 0); reflexivity. }
  split.
  - intros u post' -> Hu. rewrite (Hrun _ Htt).
    replace (pre ++ t :: u :: post') with ((pre ++ [t]) ++ u :: post')
      by (rewrite <- app_assoc; reflexivity).
    rewrite (firstAfter_skip _ _ (pre ++ [t])) by exact Hnot. simpl.
    assert (Hq : isNil (imax t) || (0 <? iCompare (s_cmp (sess st)) (imax u) (imax t))
                 = true).
    { apply qualifies_test. right. exact Hu. }
    rewrite Hq. reflexivity.
  - intros ->. rewrite (Hrun _ Htt).
    assert (Hf : firstAfter (s_cmp (sess st)) (imax t) (pre ++ [t]) = []).
    { rewrite <- (app_nil_r (pre ++ [t])).
      rewrite (firstAfter_skip _ _ (pre ++ [t])) by exact Hnot. reflexivity. }
    rewrite Hf. simpl.
    destruct (pre ++ [t]) as [|f l] eqn:Hl; [destruct pre; discriminate|].
    exists f. split; reflexivity.
Qed.

(** X18: a manifest that yields no record at all (the journal is at end of
    stream at once) is rejected: [recover] returns the missing-comparer
    manifest error and changes nothing. *)
Theorem recover_empty_manifest (st : state) (file : File) (reader : Reader)
    (jr : list (bytes + error))
    (Hm : GetManifest (stor (sess st)) = inl file)
    (Ho : Open (stor (sess st)) file = inl reader)
    (Hj : journal_NewReader reader (GetStrict (o (sess st)) StrictManifest) true
          = [] \/
          journal_NewReader reader (GetStrict (o (sess st)) StrictManifest) true
          = inr EOF :: jr) :
  recover st
  = Done (Some (ErrManifest (errors_New "leveldb: manifest missing comparer name")))
      st.
Proof using Type.
  unfold recover, recoverBody, mbind, M_bind, getSession, version_NB.
  rewrite Hm, Ho. destruct Hj as [-> | ->]; reflexivity.
Qed.

Lemma baseLevels_empty ucmp key levels : forall i ptrs,
  Forall (fun lv => lv = []) levels ->
  (forall j, (j < length levels)%nat ->
     exists a, ptrs !! (i + j)%nat = Some a /\ 0 <= a) ->
  baseLevels ucmp key levels i ptrs = Some (true, ptrs).
Proof using Type.
  induction levels as [|lv levels IH]; intros i ptrs Hall Hptr; [reflexivity|].
  inversion Hall as [|? ? -> Hall']; subst. simpl.
  destruct (Hptr 0%nat) as (a & Ha & Hpos); [simpl; lia|].
  rewrite Nat.add_0_r in Ha. rewrite Ha.
  destruct (a <? 0) eqn:Hneg; [apply Z.ltb_lt in Hneg; lia|].
  rewrite drop_nil. simpl. rewrite list_insert_id by exact Ha.
  apply IH; [exact Hall'|].
  intros j Hj. destruct (Hptr (S j)) as (b & Hb & Hbpos); [simpl; lia|].
  exists b. split; [|exact Hbpos].
  replace (S i + j)%nat with (i + S j)%nat by lia. exact Hb.
Qed.

(** X19: when the levels below the parent level hold no file, every key is
    at its base level: [isBaseLevelForKey] answers true and leaves the job
    and the state as they were. *)
Theorem isBaseLevelForKey_bottom (key : byteSlice) (c : compaction)
    (st : state) (v : version)
    (Hv : vers st !! c_version c = Some v)
    (Hlo : 0 <= c_level c + 2 <= len (v_tables v))
    (Hempty : forall lvl lv, c_level c + 2 <= lvl ->
                index (v_tables v) lvl = Some lv -> lv = [])
    (Hptrs : forall j, Z.of_nat j < len (v_tables v) - (c_level c + 2) ->
               exists a, tPtrs c !! j = Some a /\ 0 <= a) :
  isBaseLevelForKey key c st = Done (true, c) st.
Proof using Type.
  unfold isBaseLevelForKey, mbind, M_bind, getSession, load, mret, M_ret, panic.
  rewrite Hv.
  assert (Hb : (0 <=? c_level c + 2) && (c_level c + 2 <=? len (v_tables v)) = true).
  { apply andb_true_iff. split; [apply Z.leb_le | apply Z.leb_le]; lia. }
  rewrite Hb.
  rewrite baseLevels_empty.
  - destruct c. reflexivity.
  - apply Forall_forall. intros lv Hin.
    apply list_elem_of_lookup in Hin. destruct Hin as [j Hj].
    rewrite lookup_drop in Hj.
    apply (Hempty (c_level c + 2 + Z.of_nat j)); [lia|].
    unfold index. destruct (0 <=? c_level c + 2 + Z.of_nat j) eqn:H0;
      [|apply Z.leb_gt in H0; lia].
    rewrite Z2Nat.inj_add, Nat2Z.id by lia. exact Hj.
  - intros j Hj. rewrite length_drop in Hj. simpl.
    apply Hptrs. unfold len, tFiles in *. lia.
Qed.

End Model.

(** ** The properties on concrete inputs *)

(** C1, witness: an append on a closed manifest writer fails; [commit]
    returns that error and the current version stays at address 0. *)
Lemma Ref_newManifest_frame (r : option sessionRecord) (v : option vptr) (st : state) :
  stVersion (sess (snd (Ref.newManifest r v st))) = stVersion (sess st)
  /\ vers (snd (Ref.newManifest r v st)) = vers st.
Proof.
  unfold Ref.newManifest. destruct (stFileNum (sess st) <? 0); split; reflexivity.
Qed.

Lemma Ref_flushManifest_frame (r : sessionRecord) (st : state) :
  stVersion (sess (snd (Ref.flushManifest r st))) = stVersion (sess st)
  /\ vers (snd (Ref.flushManifest r st)) = vers st.
Proof.
  unfold Ref.flushManifest. destruct (manifest (sess st)) as [h|];
    [destruct (h <? 0)|]; split; reflexivity.
Qed.

Lemma commit_publishes_witness :
  let st := Ref.mkState Ref.tables1 1 (Ref.score 0) None None (Some (-1)) in
  let r := emptyRecord in
  let v := {| v_tables := Ref.tables1; cLevel := 1; cScore := Ref.score 0;
              cSeek := None |} in
  let nv := length (vers st) in
  let st1 := {| sess := sess st; vers := vers st ++ [Ref.spawn v r] |} in
  let res := match manifest (sess st) with
             | None => Ref.newManifest (Some r) (Some nv) st1
             | Some _ => Ref.flushManifest r st1
             end in
  fst res = Some (ErrIO 2)
  /\ exists st',
      commit Ref.spawn Ref.newManifest Ref.flushManifest r st = Done (fst res) st'
      /\ (fst res = None <-> stVersion (sess st') = nv)
      /\ (fst res = None ->
          vers st' !! stVersion (sess st') = Some (Ref.spawn v r))
      /\ (forall e, fst res = Some e ->
          st' = snd res
          /\ stVersion (sess st') = stVersion (sess st)
          /\ vers st' !! stVersion (sess st') = Some v).
Proof.
  intros st r v nv st1 res. split; [reflexivity|].
  exact (commit_publishes Ref.spawn Ref.newManifest Ref.flushManifest
           Ref_newManifest_frame Ref_flushManifest_frame r st v eq_refl).
Defined.

(** C1 on the success path: the first commit creates the manifest and the
    candidate, at the fresh address 1, becomes current. *)
Example commit_first :
  let st := Ref.mkState Ref.tables1 1 (Ref.score 0) None None None in
  match commit Ref.spawn Ref.newManifest Ref.flushManifest emptyRecord st with
  | Done err st' => err = None /\ stVersion (sess st') = 1%nat
                    /\ manifest (sess st') = Some 40
  | Panic _ _ => False
  end.
Proof. vm_compute. repeat split. Qed.

(** C2, witness: level 1 holds [a,f], [g,m], [n,z] and the compaction
    pointer is the largest key of [g,m]; the pick is [n,z]. *)
Lemma pickInput_by_score_witness :
  let st := Ref.mkState Ref.tables1 1 (Ref.score 2) None (Ref.mkKey "m" 1) None in
  let cp := Ref.mkKey "m" 1 in
  let tt := [Ref.fileA; Ref.fileB; Ref.fileC] in
  let icmp := s_cmp (sess st) in
  pickInput Ref.iCompare st = Done (Some (0%nat, 1, [Ref.fileC])) st
  /\ exists t,
      pickInput Ref.iCompare st = Done (Some (stVersion (sess st), 1, [t])) st
      /\ ((exists pre post,
              tt = pre ++ t :: post /\ qualifies Ref.iCompare icmp cp t
              /\ Forall (fun u => ~ qualifies Ref.iCompare icmp cp u) pre)
          \/ (Forall (fun u => ~ qualifies Ref.iCompare icmp cp u) tt
              /\ tt !! 0%nat = Some t))
      /\ (cp = None -> tt !! 0%nat = Some t).
Proof.
  intros st cp tt icmp. split; [vm_compute; reflexivity|].
  assert (Hne : tt <> []) by discriminate.
  exact (pickInput_by_score Ref.iCompare st
           {| v_tables := Ref.tables1; cLevel := 1; cScore := Ref.score 2;
              cSeek := None |} cp tt eq_refl eq_refl eq_refl eq_refl Hne).
Defined.

(** C2, the wrap-around: with the pointer past [z] no file qualifies and the
    pick is the first file, [a,f]. *)
Example pickInput_wraps :
  let st := Ref.mkState Ref.tables1 1 (Ref.score 2) None (Ref.mkKey "zz" 1) None in
  pickInput Ref.iCompare st = Done (Some (0%nat, 1, [Ref.fileA])) st.
Proof. vm_compute. reflexivity. Qed.

(** C3, witness: a version with score 0 and a hint for file [g,m] at
    level 1. *)
Lemma pickInput_by_seek_witness :
  let hint := {| ts_level := 1; ts_table := Ref.fileB |} in
  let st := Ref.mkState Ref.tables1 1 (Ref.score 0) (Some hint) None None in
  let pick := pickCompaction Ref.kNumLevels Ref.kExpCompactionMaxBytes
                Ref.iCompare Ref.ukey Ref.getRange Ref.getOverlaps Ref.tFiles_size in
  pickInput Ref.iCompare st = Done (Some (stVersion (sess st), 1, [Ref.fileB])) st
  /\ forall r st',
       pick st = Done r st' ->
       st' = st /\ r <> None
       /\ (cSeek <$> vers st' !! stVersion (sess st')) = Some (Some hint)
       /\ pick st' = Done r st'.
Proof.
  intros hint st pick.
  exact (pickInput_by_seek Ref.kNumLevels Ref.kExpCompactionMaxBytes
           Ref.iCompare Ref.ukey Ref.getRange Ref.getOverlaps Ref.tFiles_size st
           {| v_tables := Ref.tables1; cLevel := 1; cScore := Ref.score 0;
              cSeek := Some hint |} hint eq_refl eq_refl eq_refl).
Defined.

(** C3, counterexample: the pick returns a job built from the hint, the hint
    slot of the current version is still set afterwards, and the next pick
    consumes the same hint again. *)
Lemma pickCompaction_keeps_hint :
  let hint := {| ts_level := 1; ts_table := Ref.fileB |} in
  let st := Ref.mkState Ref.tables1 1 (Ref.score 0) (Some hint) None None in
  let pick := pickCompaction Ref.kNumLevels Ref.kExpCompactionMaxBytes
                Ref.iCompare Ref.ukey Ref.getRange Ref.getOverlaps Ref.tFiles_size in
  exists c st',
    pick st = Done (Some c) st'
    /\ (cSeek <$> vers st' !! stVersion (sess st')) = Some (Some hint)
    /\ (cSeek <$> vers st' !! stVersion (sess st')) <> Some None
    /\ pick st' = Done (Some c) st'.
Proof.
  intros hint st pick.
  destruct (pick st) as [[c|] st'|] eqn:Hp;
    [| vm_compute in Hp; discriminate | vm_compute in Hp; discriminate].
  pose proof (pickCompaction_state _ _ _ _ _ _ _ _ _ _ Hp) as ->.
  exists c, st. split; [reflexivity|].
  split; [vm_compute; reflexivity|].
  split; [vm_compute; discriminate|].
  exact Hp.
Qed.

(** C4, witness: the version of the C2 example; the pick returns a job. *)
Lemma pickCompaction_live_witness :
  let st := Ref.mkState Ref.tables1 1 (Ref.score 2) None (Ref.mkKey "m" 1) None in
  let v := {| v_tables := Ref.tables1; cLevel := 1; cScore := Ref.score 2;
              cSeek := None |} in
  let pick := pickCompaction Ref.kNumLevels Ref.kExpCompactionMaxBytes
                Ref.iCompare Ref.ukey Ref.getRange Ref.getOverlaps Ref.tFiles_size in
  ge1 (cScore v) = true
  /\ (forall st', pick st <> Done None st')
  /\ (forall tt,
        len (stCPtrs (sess st)) = Ref.kNumLevels ->
        len (v_tables v) = Ref.kNumLevels ->
        0 <= cLevel v -> cLevel v + 1 < Ref.kNumLevels ->
        index (v_tables v) (cLevel v) = Some tt -> tt <> [] ->
        exists c, pick st = Done (Some c) st).
Proof.
  intros st v pick. split; [reflexivity|].
  exact (pickCompaction_live Ref.kNumLevels Ref.kExpCompactionMaxBytes
           Ref.iCompare Ref.ukey Ref.getRange Ref.getOverlaps Ref.tFiles_size
           st v eq_refl eq_refl).
Defined.

(** C4, counterexample: a version with score 2 whose candidate level 1 holds
    no file; the pick panics and returns no compaction object. *)
Lemma pickCompaction_empty_level :
  let st := Ref.mkState (replicate 7 []) 1 (Ref.score 2) None None None in
  let pick := pickCompaction Ref.kNumLevels Ref.kExpCompactionMaxBytes
                Ref.iCompare Ref.ukey Ref.getRange Ref.getOverlaps Ref.tFiles_size in
  (cScore <$> vers st !! stVersion (sess st)) = Some (Ref.score 2)
  /\ ge1 (Ref.score 2) = true
  /\ ~ exists c st', pick st = Done (Some c) st'.
Proof.
  intros st pick. split; [reflexivity|]. split; [reflexivity|].
  intros (c & st' & Hp). vm_compute in Hp. discriminate.
Qed.

(** C5, witness: level 1 holds [a,f], [g,m], [n,z] and level 2 holds [e,h].
    From the input [a,f] the parent set is [e,h], the wider set is
    [a,f], [g,m], its parent set is still [e,h], and the input grows. *)
Lemma expand_growth_witness :
  let st := Ref.mkState Ref.tables1 1 (Ref.score 2) None None None in
  let c := with_tables0 (newCompaction Ref.kNumLevels 0%nat 1) [Ref.fileA] in
  let vt0 := [Ref.fileA; Ref.fileB; Ref.fileC] in
  let vt1 := [Ref.fileP] in
  let icmp := s_cmp (sess st) in
  let level := c_level c in
  let t0 := fst (c_tables c) in
  let t1 := parentsOf Ref.ukey Ref.getRange Ref.getOverlaps icmp vt1 t0
              (snd (c_tables c)) in
  let exp0 := widerInputs Ref.ukey Ref.getRange Ref.getOverlaps icmp level vt0 t0 t1 in
  let exp1 := parentsOf Ref.ukey Ref.getRange Ref.getOverlaps icmp vt1 exp0 [] in
  let grown := grows Ref.kExpCompactionMaxBytes Ref.ukey Ref.getRange
                 Ref.getOverlaps Ref.tFiles_size icmp level vt0 vt1 t0 t1 in
  (exp0, exp1) = ([Ref.fileA; Ref.fileB], [Ref.fileP])
  /\ grown
  /\ exists c',
      expand Ref.kNumLevels Ref.kExpCompactionMaxBytes Ref.ukey Ref.getRange
        Ref.getOverlaps Ref.tFiles_size c st = Done c' st
      /\ (grown -> c_tables c' = (exp0, exp1))
      /\ (~ grown -> c_tables c' = (t0, t1))
      /\ (fst (c_tables c') <> t0 -> grown)
      /\ (fst (c_tables c') = t0 \/ fst (c_tables c') = exp0).
Proof.
  intros st c vt0 vt1 icmp level t0 t1 exp0 exp1 grown.
  split; [vm_compute; reflexivity|].
  split; [vm_compute; repeat split; discriminate|].
  assert (H2 : c_level c + 2 < Ref.kNumLevels ->
               is_Some (index (v_tables {| v_tables := Ref.tables1; cLevel := 1;
                                           cScore := Ref.score 2; cSeek := None |})
                          (c_level c + 2)))
    by (intros _; exists [Ref.fileG]; reflexivity).
  exact (expand_growth Ref.kNumLevels Ref.kExpCompactionMaxBytes Ref.ukey
           Ref.getRange Ref.getOverlaps Ref.tFiles_size c st
           {| v_tables := Ref.tables1; cLevel := 1; cScore := Ref.score 2;
              cSeek := None |} vt0 vt1 eq_refl eq_refl eq_refl H2).
Defined.

(** C8, witness: no manifest, but table file 5 is still in the storage. *)
Lemma recover_manifest_missing_witness :
  let st := Ref.stateOn Ref.orphanStorage in
  let run := recover Ref.versionStaging Ref.newStaging Ref.staging_commit
               Ref.staging_finish Ref.journal_NewReader Ref.decode
               Ref.recordCommited in
  let files := fst (GetFiles (stor (sess st)) TypeAll) in
  GetManifest (stor (sess st)) = inr ErrNotExist
  /\ files = [ {| fileType := TypeTable; fileNum := 5 |} ]
  /\ (files <> [] ->
      run st = Done (Some (ErrManifest (errors_New "leveldb: manifest file missing"))) st)
  /\ (files = [] -> run st = Done (Some ErrNotExist) st).
Proof.
  intros st run files. split; [reflexivity|]. split; [reflexivity|].
  exact (recover_manifest_missing Ref.versionStaging Ref.newStaging
           Ref.staging_commit Ref.staging_finish Ref.journal_NewReader
           Ref.decode Ref.recordCommited st ErrNotExist eq_refl eq_refl).
Defined.

(** C8 on a fresh storage: the not-exist error is passed on. *)
Example recover_fresh :
  let st := Ref.stateOn Ref.emptyStorage in
  recover Ref.versionStaging Ref.newStaging Ref.staging_commit
    Ref.staging_finish Ref.journal_NewReader Ref.decode Ref.recordCommited st
  = Done (Some ErrNotExist) st.
Proof. vm_compute. reflexivity. Qed.

(** C9, witness: score 3 at level 2, which holds no file. *)
Lemma pickInput_first_file_bounds_witness :
  let st := {| sess := Ref.mkSession Ref.emptyStorage Ref.noPointers None;
               vers := [ {| v_tables := [ []; [Ref.fileA]; []; []; []; []; [] ];
                            cLevel := 2; cScore := Ref.score 3; cSeek := None |} ] |} in
  let tt : tFiles := [] in
  pickInput Ref.iCompare st = Panic "index out of range" st
  /\ (tt <> [] -> exists r, pickInput Ref.iCompare st = Done (Some r) st)
  /\ (tt = [] ->
      pickInput Ref.iCompare st = Panic "index out of range" st
      /\ pickCompaction Ref.kNumLevels Ref.kExpCompactionMaxBytes Ref.iCompare
           Ref.ukey Ref.getRange Ref.getOverlaps Ref.tFiles_size st
         = Panic "index out of range" st).
Proof.
  intros st tt. split; [vm_compute; reflexivity|].
  exact (pickInput_first_file_bounds Ref.kNumLevels Ref.kExpCompactionMaxBytes
           Ref.iCompare Ref.ukey Ref.getRange Ref.getOverlaps Ref.tFiles_size st
           {| v_tables := [ []; [Ref.fileA]; []; []; []; []; [] ];
              cLevel := 2; cScore := Ref.score 3; cSeek := None |}
           None tt eq_refl eq_refl eq_refl eq_refl).
Defined.

(** C10, witness: a manifest whose first record moves the level-1 compaction
    pointer to ["k"] and which never names a comparer. Recovery fails on the
    missing comparer name; the pointer stays moved, the version pointer and
    the file number do not change. *)
Lemma recover_failure_effect_witness :
  let st := Ref.stateOn Ref.manifestStorage in
  let run := recover Ref.versionStaging Ref.newStaging Ref.staging_commit
               Ref.staging_finish Ref.journal_NewReader Ref.decode
               Ref.recordCommited in
  let e := ErrManifest (errors_New "leveldb: manifest missing comparer name") in
  let st' := {| sess := with_stCPtrs (sess st)
                          (<[1%nat := Some [Byte.x6b]]> (stCPtrs (sess st)));
                vers := vers st |} in
  run st = Done (Some e) st'
  /\ stCPtrs (sess st) !! 1%nat = Some None
  /\ stCPtrs (sess st') !! 1%nat = Some (Some [Byte.x6b])
  /\ stVersion (sess st') = stVersion (sess st)
  /\ stFileNum (sess st') = stFileNum (sess st)
  /\ vers st' = vers st
  /\ forall file reader,
       GetManifest (stor (sess st)) = inl file ->
       Open (stor (sess st)) file = inl reader ->
       let strict := GetStrict (o (sess st)) StrictManifest in
       stCPtrs (sess st')
       = fold_left writePtr
           (pointerWrites Ref.decode strict
              (Ref.journal_NewReader reader strict true) emptyRecord)
           (stCPtrs (sess st)).
Proof.
  intros st run e st'.
  assert (Hfail : run st = Done (Some e) st') by (vm_compute; reflexivity).
  split; [exact Hfail|]. split; [reflexivity|]. split; [reflexivity|].
  exact (recover_failure_effect Ref.versionStaging Ref.newStaging
           Ref.staging_commit Ref.staging_finish Ref.journal_NewReader
           Ref.decode Ref.recordCommited st e st' Hfail).
Defined.

(** C6, witness: three grandparent files of 11 MiB each and a key past all of
    them, with a key already seen: the counter reaches 33 MiB, above the
    20 MiB ceiling, and the call cuts. *)
Lemma shouldStopBefore_budget_witness :
  let big := 11 * 1048576 in
  let c := {| c_version := 0%nat; c_level := 1;
              c_tables := ([Ref.fileA], []);
              gp := [Ref.mkFile 31 "a" "c" big; Ref.mkFile 32 "d" "f" big;
                     Ref.mkFile 33 "g" "k" big];
              gpidx := 0; seenKey := true; overlappedBytes := 0;
              c_min := None; c_max := None; tPtrs := [] |} in
  let key := Ref.mkKey "m" 5 in
  let st := Ref.mkState Ref.tables1 1 (Ref.score 2) None None None in
  let icmp := s_cmp (sess st) in
  let stop := shouldStopBefore Ref.kMaxGrandParentOverlapBytes Ref.iCompare in
  0 <= gpidx c /\ 0 <= Ref.kMaxGrandParentOverlapBytes
  /\ (exists skipped rest c',
      drop (Z.to_nat (gpidx c)) (gp c) = skipped ++ rest
      /\ Forall (fun g => 0 < Ref.iCompare icmp key (imax g)) skipped
      /\ stopsAt Ref.iCompare icmp key rest
      /\ let acc := accumulate (seenKey c) skipped (overlappedBytes c) in
         let cut := Ref.kMaxGrandParentOverlapBytes <? acc in
         stop key c st = Done (cut, c') st
         /\ (cut = true <-> Ref.kMaxGrandParentOverlapBytes < acc)
         /\ overlappedBytes c' = (if cut then 0 else acc)
         /\ gpidx c' = gpidx c + len skipped
         /\ seenKey c' = true
         /\ gp c' = gp c
         /\ (cut = true ->
             forall key', stopsAt Ref.iCompare icmp key' rest ->
               exists c'', stop key' c' st = Done (false, c'') st
                           /\ overlappedBytes c'' = 0))
  /\ (forall keys, exists c_end,
        feed Ref.kMaxGrandParentOverlapBytes Ref.iCompare keys c st
        = Done (cuts Ref.kMaxGrandParentOverlapBytes Ref.iCompare icmp keys
                  (drop (Z.to_nat (gpidx c)) (gp c)) (seenKey c)
                  (overlappedBytes c), c_end) st).
Proof.
  intros big c key st icmp stop.
  assert (H1 : 0 <= gpidx c) by (vm_compute; discriminate).
  assert (H2 : 0 <= Ref.kMaxGrandParentOverlapBytes) by (vm_compute; discriminate).
  split; [exact H1|]. split; [exact H2|].
  exact (shouldStopBefore_budget Ref.kMaxGrandParentOverlapBytes Ref.iCompare
           key c st H1 H2).
Defined.

(** C6 on a run of keys: with a key seen before, the keys ["e"], ["m"], ["n"]
    pass one file (11 MiB, no cut), then two more (33 MiB, cut and reset),
    then none (no cut). *)
Example shouldStopBefore_run :
  let big := 11 * 1048576 in
  let c := {| c_version := 0%nat; c_level := 1;
              c_tables := ([Ref.fileA], []);
              gp := [Ref.mkFile 31 "a" "c" big; Ref.mkFile 32 "d" "f" big;
                     Ref.mkFile 33 "g" "k" big];
              gpidx := 0; seenKey := true; overlappedBytes := 0;
              c_min := None; c_max := None; tPtrs := [] |} in
  let st := Ref.mkState Ref.tables1 1 (Ref.score 2) None None None in
  match feed Ref.kMaxGrandParentOverlapBytes Ref.iCompare
          [Ref.mkKey "e" 5; Ref.mkKey "m" 5; Ref.mkKey "n" 5] c st with
  | Done (answers, c') _ =>
      answers = [false; true; false] /\ overlappedBytes c' = 0 /\ gpidx c' = 3
  | Panic _ _ => False
  end.
Proof. vm_compute. repeat split. Qed.

(** C7, counterexample: a job with one input file, no parent file and a
    grandparent overlap equal to the ceiling is trivial, although its overlap
    is not below the ceiling. *)
Lemma trivial_at_ceiling :
  let c := {| c_version := 0%nat; c_level := 1;
              c_tables := ([Ref.mkFile 5 "a" "f" 1000], []);
              gp := [Ref.mkFile 9 "a" "k" Ref.kMaxGrandParentOverlapBytes];
              gpidx := 0; seenKey := false; overlappedBytes := 0;
              c_min := None; c_max := None; tPtrs := [] |} in
  ~ (trivial Ref.kMaxGrandParentOverlapBytes Ref.tFiles_size c = true <->
     len (fst (c_tables c)) = 1 /\ len (snd (c_tables c)) = 0
     /\ Ref.tFiles_size (gp c) < Ref.kMaxGrandParentOverlapBytes).
Proof.
  intros c [H _].
  assert (Ht : trivial Ref.kMaxGrandParentOverlapBytes Ref.tFiles_size c = true)
    by (vm_compute; reflexivity).
  destruct (H Ht) as (_ & _ & Hlt).
  vm_compute in Hlt. discriminate.
Qed.


(** ** The further properties on concrete inputs *)

(** X1 on the example version with score 0 and no hint. *)
Example pickCompaction_nothing :
  let st := Ref.mkState Ref.tables1 1 (Ref.score 0) None None None in
  pickCompaction Ref.kNumLevels Ref.kExpCompactionMaxBytes Ref.iCompare Ref.ukey
    Ref.getRange Ref.getOverlaps Ref.tFiles_size st = Done None st.
Proof. vm_compute. reflexivity. Qed.

(** X2, witness: the job picked on the C2 example; any first key leaves the
    output uncut. *)
Lemma pickCompaction_first_key_witness :
  let st := Ref.mkState Ref.tables1 1 (Ref.score 2) None (Ref.mkKey "m" 1) None in
  match pickCompaction Ref.kNumLevels Ref.kExpCompactionMaxBytes Ref.iCompare
          Ref.ukey Ref.getRange Ref.getOverlaps Ref.tFiles_size st with
  | Done (Some c) st' =>
      0 <= Ref.kMaxGrandParentOverlapBytes
      /\ c_version c = stVersion (sess st)
      /\ gpidx c = 0 /\ seenKey c = false /\ overlappedBytes c = 0
      /\ forall key, exists c',
           shouldStopBefore Ref.kMaxGrandParentOverlapBytes Ref.iCompare key c st'
           = Done (false, c') st'
           /\ seenKey c' = true /\ overlappedBytes c' = 0
  | _ => False
  end.
Proof.
  intros st.
  destruct (pickCompaction Ref.kNumLevels Ref.kExpCompactionMaxBytes Ref.iCompare
              Ref.ukey Ref.getRange Ref.getOverlaps Ref.tFiles_size st)
    as [[c|] st'|] eqn:Hp;
    [| vm_compute in Hp; discriminate | vm_compute in Hp; discriminate].
  assert (Hceil : 0 <= Ref.kMaxGrandParentOverlapBytes) by (vm_compute; discriminate).
  split; [exact Hceil|].
  exact (pickCompaction_first_key Ref.kNumLevels Ref.kExpCompactionMaxBytes
           Ref.kMaxGrandParentOverlapBytes Ref.iCompare Ref.ukey Ref.getRange
           Ref.getOverlaps Ref.tFiles_size st st' c Hp Hceil).
Defined.

(** X3, witness: the three 11 MiB grandparent files of the C6 example and a
    key past all of them. *)
Lemma shouldStopBefore_invariant_witness :
  let big := 11 * 1048576 in
  let c := {| c_version := 0%nat; c_level := 1;
              c_tables := ([Ref.fileA], []);
              gp := [Ref.mkFile 31 "a" "c" big; Ref.mkFile 32 "d" "f" big;
                     Ref.mkFile 33 "g" "k" big];
              gpidx := 0; seenKey := true; overlappedBytes := 0;
              c_min := None; c_max := None; tPtrs := [] |} in
  let key := Ref.mkKey "m" 5 in
  let st := Ref.mkState Ref.tables1 1 (Ref.score 2) None None None in
  let stop := shouldStopBefore Ref.kMaxGrandParentOverlapBytes Ref.iCompare in
  match stop key c st with
  | Done (b, c') st' =>
      b = true
      /\ st' = st
      /\ gpidx c <= gpidx c'
      /\ (gpidx c <= len (gp c) -> gpidx c' <= len (gp c))
      /\ seenKey c' = true
      /\ overlappedBytes c' <= Ref.kMaxGrandParentOverlapBytes
      /\ stop key c' st = Done (false, c') st
  | Panic _ _ => False
  end.
Proof.
  intros big c key st stop.
  destruct (stop key c st) as [[b c'] st'|] eqn:Hrun;
    [| vm_compute in Hrun; discriminate].
  split; [vm_compute in Hrun; congruence|].
  assert (H1 : 0 <= gpidx c) by (vm_compute; discriminate).
  assert (H2 : 0 <= Ref.kMaxGrandParentOverlapBytes) by (vm_compute; discriminate).
  exact (shouldStopBefore_invariant Ref.kMaxGrandParentOverlapBytes Ref.iCompare
           key c c' st st' b H1 H2 Hrun).
Defined.

(** X4, witness: the job at level 1 with input [a,f] on the example tables;
    it grows to [a,f], [g,m] with parent [e,h] and grandparent [a,k]. *)
Lemma expand_consistent_witness :
  let st := Ref.mkState Ref.tables1 1 (Ref.score 2) None None None in
  let v := {| v_tables := Ref.tables1; cLevel := 1; cScore := Ref.score 2;
              cSeek := None |} in
  let c := Ref.job1 in
  let icmp := s_cmp (sess st) in
  match expand Ref.kNumLevels Ref.kExpCompactionMaxBytes Ref.ukey Ref.getRange
          Ref.getOverlaps Ref.tFiles_size c st with
  | Done c' st' =>
      let ra := Ref.getRange (fst (c_tables c') ++ snd (c_tables c')) icmp in
      (c_tables c', gp c') = (([Ref.fileA; Ref.fileB], [Ref.fileP]), [Ref.fileG])
      /\ (c_min c', c_max c') = Ref.getRange (fst (c_tables c')) icmp
      /\ snd (c_tables c')
         = parentsOf Ref.ukey Ref.getRange Ref.getOverlaps icmp [Ref.fileP]
             (fst (c_tables c')) []
      /\ (forall vt2, c_level c + 2 < Ref.kNumLevels ->
            index (v_tables v) (c_level c + 2) = Some vt2 ->
            gp c' = Ref.getOverlaps vt2 (Ref.ukey (fst ra)) (Ref.ukey (snd ra))
                      (gp c) true (cmp icmp))
      /\ (Ref.kNumLevels <= c_level c + 2 -> gp c' = gp c)
  | Panic _ _ => False
  end.
Proof.
  intros st v c icmp.
  destruct (expand Ref.kNumLevels Ref.kExpCompactionMaxBytes Ref.ukey Ref.getRange
              Ref.getOverlaps Ref.tFiles_size c st) as [c' st'|] eqn:Hrun;
    [| vm_compute in Hrun; discriminate].
  split; [vm_compute in Hrun; injection Hrun as <- _; reflexivity|].
  exact (expand_consistent Ref.kNumLevels Ref.kExpCompactionMaxBytes Ref.ukey
           Ref.getRange Ref.getOverlaps Ref.tFiles_size c c' st st' v [Ref.fileP]
           eq_refl eq_refl eq_refl Hrun).
Defined.



(** X7, witness: the last level, 6, holding one file [a,k]. *)
Lemma getCompactionRange_last_level_witness :
  let v := {| v_tables := [ []; []; []; []; []; []; [Ref.fileG] ]; cLevel := 0;
              cScore := Ref.score 0; cSeek := None |} in
  let st := {| sess := Ref.mkSession Ref.emptyStorage Ref.noPointers None;
               vers := [v] |} in
  let run := getCompactionRange Ref.kNumLevels Ref.kExpCompactionMaxBytes Ref.ukey
               Ref.getRange Ref.getOverlaps Ref.tFiles_size in
  let level := Ref.kNumLevels - 1 in
  run level None None st = Panic "index out of range" st
  /\ exists vt,
      index (v_tables v) level = Some vt
      /\ let t0 := Ref.getOverlaps vt None None [] (negb (level =? 0))
                     (cmp (s_cmp (sess st))) in
         (t0 = [] -> run level None None st = Done None st)
         /\ (t0 <> [] -> run level None None st = Panic "index out of range" st).
Proof.
  intros v st run level. split; [vm_compute; reflexivity|].
  assert (Hpos : 1 <= Ref.kNumLevels) by (vm_compute; discriminate).
  exact (getCompactionRange_last_level Ref.kNumLevels Ref.kExpCompactionMaxBytes
           Ref.ukey Ref.getRange Ref.getOverlaps Ref.tFiles_size None None st v
           eq_refl eq_refl Hpos).
Defined.

(** X8, witness: a job at level 1; level 3 holds [a,k], which holds ["c"]. *)
Lemma isBaseLevelForKey_false_witness :
  let st := Ref.mkState Ref.tables1 1 (Ref.score 2) None None None in
  let v := {| v_tables := Ref.tables1; cLevel := 1; cScore := Ref.score 2;
              cSeek := None |} in
  let key : byteSlice := Some (String.list_byte_of_string "c") in
  match isBaseLevelForKey Ref.ukey key Ref.job1 st with
  | Done (b, c') st' =>
      b = false
      /\ exists lvl lv t,
          c_level Ref.job1 + 2 <= lvl
          /\ index (v_tables v) lvl = Some lv
          /\ t ∈ lv
          /\ keyWithin Ref.ukey (cmp (s_cmp (sess st))) key t
  | Panic _ _ => False
  end.
Proof.
  intros st v key.
  destruct (isBaseLevelForKey Ref.ukey key Ref.job1 st) as [[b c'] st'|] eqn:Hrun;
    [| vm_compute in Hrun; discriminate].
  assert (Hb : b = false) by (vm_compute in Hrun; congruence).
  split; [exact Hb|]. subst b.
  exact (isBaseLevelForKey_false Ref.ukey key Ref.job1 c' st st' v eq_refl Hrun).
Defined.

(** X9, witness: the key ["m"] lies past [a,k]; the cursor of level 3 moves
    from 0 to 1, the others stay. *)
Lemma isBaseLevelForKey_cursors_witness :
  let st := Ref.mkState Ref.tables1 1 (Ref.score 2) None None None in
  let v := {| v_tables := Ref.tables1; cLevel := 1; cScore := Ref.score 2;
              cSeek := None |} in
  let key : byteSlice := Some (String.list_byte_of_string "m") in
  let c := Ref.job1 in
  match isBaseLevelForKey Ref.ukey key c st with
  | Done (b, c') st' =>
      (b, tPtrs c') = (true, [1; 0; 0; 0; 0; 0; 0])
      /\ st' = st
      /\ c' = with_tPtrs c (tPtrs c')
      /\ length (tPtrs c') = length (tPtrs c)
      /\ forall k a, tPtrs c !! k = Some a ->
           exists a', tPtrs c' !! k = Some a' /\ a <= a'
  | Panic _ _ => False
  end.
Proof.
  intros st v key c.
  destruct (isBaseLevelForKey Ref.ukey key c st) as [[b c'] st'|] eqn:Hrun;
    [| vm_compute in Hrun; discriminate].
  split; [vm_compute in Hrun; injection Hrun as <- <- _; reflexivity|].
  exact (isBaseLevelForKey_cursors Ref.ukey key c c' st st' v b eq_refl Hrun).
Defined.

(** X10, witness: the same call; level 3 was scanned from 0 to 1. *)
Lemma isBaseLevelForKey_true_witness :
  let st := Ref.mkState Ref.tables1 1 (Ref.score 2) None None None in
  let v := {| v_tables := Ref.tables1; cLevel := 1; cScore := Ref.score 2;
              cSeek := None |} in
  let key : byteSlice := Some (String.list_byte_of_string "m") in
  let c := Ref.job1 in
  match isBaseLevelForKey Ref.ukey key c st with
  | Done (b, c') st' =>
      b = true
      /\ forall (j : nat) (lv : tFiles),
           index (v_tables v) (c_level c + 2 + Z.of_nat j) = Some lv ->
           exists a a',
             tPtrs c !! j = Some a /\ tPtrs c' !! j = Some a' /\ 0 <= a
             /\ scanned Ref.ukey (cmp (s_cmp (sess st))) key lv a a'
  | Panic _ _ => False
  end.
Proof.
  intros st v key c.
  destruct (isBaseLevelForKey Ref.ukey key c st) as [[b c'] st'|] eqn:Hrun;
    [| vm_compute in Hrun; discriminate].
  assert (Hb : b = true) by (vm_compute in Hrun; congruence).
  split; [exact Hb|]. subst b.
  exact (isBaseLevelForKey_true Ref.ukey key c c' st st' v eq_refl Hrun).
Defined.

(** X11, witness: a level-0 job with two input files and one parent file:
    three iterators, within the capacity of three. *)
Lemma newIterator_count_witness :
  let st := Ref.mkState Ref.tables1 1 (Ref.score 2) None None None in
  let c := {| c_version := 0%nat; c_level := 0;
              c_tables := ([Ref.fileA; Ref.fileB], [Ref.fileP]); gp := [];
              gpidx := 0; seenKey := false; overlappedBytes := 0;
              c_min := None; c_max := None; tPtrs := [] |} in
  let table := fun t ro => Ref.tops_newIterator t (DontFillCache ro) in
  let idx := fun tt ic ro => Ref.newIndexIterator tt ic (DontFillCache ro) in
  let its := inputIterators Ref.iter Ref.iter table idx Ref.NewIndexedIterator
               (sess st) c in
  let one (tt : tFiles) := if len tt =? 0 then 0 else 1 in
  its = [Ref.TableIter 11 true; Ref.TableIter 12 true; Ref.Indexed [21] true false]
  /\ 0 <= c_level c
  /\ newIterator Ref.iter Ref.iter table idx Ref.NewIndexedIterator
       Ref.NewMergedIterator c st
     = Done (Ref.NewMergedIterator its (s_cmp (sess st)) true) st
  /\ len its
     = (if c_level c =? 0 then len (fst (c_tables c)) else one (fst (c_tables c)))
       + one (snd (c_tables c))
  /\ len its <= iteratorCap c.
Proof.
  intros st c table idx its one.
  split; [vm_compute; reflexivity|].
  assert (Hl : 0 <= c_level c) by (vm_compute; discriminate).
  split; [exact Hl|].
  exact (newIterator_count Ref.iter Ref.iter table idx Ref.NewIndexedIterator
           Ref.NewMergedIterator c st Hl).
Defined.

(** X12 on a storage whose lock succeeds: the fresh session has seven levels
    and nothing to compact. *)
Example newSession_example :
  match newSession Ref.kNumLevels Ref.stor_Lock Ref.setOptions
          (Some Ref.emptyStorage) Ref.lenient with
  | (Some st, None) =>
      len (stCPtrs (sess st)) = 7
      /\ pickCompaction Ref.kNumLevels Ref.kExpCompactionMaxBytes Ref.iCompare
           Ref.ukey Ref.getRange Ref.getOverlaps Ref.tFiles_size st
         = Done None st
  | _ => False
  end.
Proof. vm_compute. split; reflexivity. Qed.

(** X13, witness: a storage without manifest and without files. *)
Lemma recover_not_exist_means_empty_witness :
  let st := Ref.stateOn Ref.emptyStorage in
  let run := recover Ref.versionStaging Ref.newStaging Ref.staging_commit
               Ref.staging_finish Ref.journal_NewReader Ref.decode
               Ref.recordCommited in
  run st = Done (Some ErrNotExist) st
  /\ os_IsNotExist (Some ErrNotExist) = true
  /\ fst (GetFiles (stor (sess st)) TypeAll) = [].
Proof.
  intros st run.
  assert (Hrun : run st = Done (Some ErrNotExist) st) by (vm_compute; reflexivity).
  split; [exact Hrun|]. split; [reflexivity|].
  exact (recover_not_exist_means_empty Ref.versionStaging Ref.newStaging
           Ref.staging_commit Ref.staging_finish Ref.journal_NewReader
           Ref.decode Ref.recordCommited st st ErrNotExist Hrun eq_refl).
Defined.

(** X14, witness: a manifest of one complete record. *)
Lemma recover_success_complete_witness :
  let st := Ref.stateOn (Ref.storageWith Ref.goodManifestBytes) in
  let run := recover Ref.versionStaging Ref.newStaging Ref.staging_commit
               Ref.staging_finish Ref.journal_NewReader Ref.decode
               Ref.recordCommited in
  match run st with
  | Done None st' =>
      (stFileNum (sess st'), stJournalNum (sess st'), stSeq (sess st'),
       stVersion (sess st')) = (9, 3, 7, 1%nat)
      /\ exists file reader staging rec st1,
          GetManifest (stor (sess st)) = inl file
          /\ Open (stor (sess st)) file = inl reader
          /\ (let strict := GetStrict (o (sess st)) StrictManifest in
              replay Ref.versionStaging Ref.staging_commit Ref.decode strict
                (Ref.journal_NewReader reader strict true)
                (Ref.newStaging (stVersion (sess st))) emptyRecord st
              = Done (inr (staging, rec)) st1)
          /\ has rec recComparer = true
          /\ comparer rec = Name (cmp (s_cmp (sess st)))
          /\ has rec recNextNum = true
          /\ has rec recJournalNum = true
          /\ has rec recSeq = true
  | _ => False
  end.
Proof.
  intros st run.
  destruct (run st) as [[e|] st'|] eqn:Hrun;
    [vm_compute in Hrun; discriminate | | vm_compute in Hrun; discriminate].
  split; [vm_compute in Hrun; injection Hrun as <-; reflexivity|].
  exact (recover_success_complete Ref.versionStaging Ref.newStaging
           Ref.staging_commit Ref.staging_finish Ref.journal_NewReader
           Ref.decode Ref.recordCommited st st' Hrun).
Defined.

(** X15, witness: a manifest whose record moves the pointer of level 9, in a
    session of seven levels. *)
Lemma recover_pointer_level_panics_witness :
  let st := Ref.stateOn (Ref.storageWith Ref.badLevelManifestBytes) in
  let run := recover Ref.versionStaging Ref.newStaging Ref.staging_commit
               Ref.staging_finish Ref.journal_NewReader Ref.decode
               Ref.recordCommited in
  let rp := {| cp_level := 9; cp_key := Some [Byte.x6b] |} in
  ~ (0 <= cp_level rp < len (stCPtrs (sess st)))
  /\ exists st', run st = Panic "index out of range" st'.
Proof.
  intros st run rp.
  assert (Hout : ~ (0 <= cp_level rp < len (stCPtrs (sess st))))
    by (vm_compute; intros [_ H]; discriminate H).
  split; [exact Hout|].
  assert (Hin : rp ∈ compactionPointers
                  (Ref.addCompactionPointer emptyRecord 9 [Byte.x6b]))
    by (left).
  exact (recover_pointer_level_panics Ref.versionStaging Ref.newStaging
           Ref.staging_commit Ref.staging_finish Ref.journal_NewReader
           Ref.decode Ref.recordCommited st
           {| fileType := TypeManifest; fileNum := 2 |}
           Ref.badLevelManifestBytes (map Ref.byteOf [5; 9; 1; 107]) []
           (Ref.addCompactionPointer emptyRecord 9 [Byte.x6b]) rp
           eq_refl eq_refl eq_refl eq_refl Hin Hout).
Defined.


(** X17, witness: level 1 holds [a,f], [g,m], [n,z]; with the pointer at the
    largest key of [a,f] the pick is [g,m]. *)
Lemma pickInput_successor_witness :
  let st := Ref.mkState Ref.tables1 1 (Ref.score 2) None (imax Ref.fileA) None in
  let v := {| v_tables := Ref.tables1; cLevel := 1; cScore := Ref.score 2;
              cSeek := None |} in
  let pre : tFiles := [] in
  let post := [Ref.fileB; Ref.fileC] in
  let t := Ref.fileA in
  pickInput Ref.iCompare st = Done (Some (0%nat, 1, [Ref.fileB])) st
  /\ (forall u post', post = u :: post' ->
        0 < Ref.iCompare (s_cmp (sess st)) (imax u) (imax t) ->
        pickInput Ref.iCompare st
        = Done (Some (stVersion (sess st), cLevel v, [u])) st)
  /\ (post = [] ->
      exists first, (pre ++ [t]) !! 0%nat = Some first
        /\ pickInput Ref.iCompare st
           = Done (Some (stVersion (sess st), cLevel v, [first])) st).
Proof.
  intros st v pre post t. split; [vm_compute; reflexivity|].
  assert (Hkey : imax t <> None) by discriminate.
  assert (Hsorted : Forall (fun x => Ref.iCompare (s_cmp (sess st)) (imax x) (imax t) <= 0)
                      (pre ++ [t])).
  { constructor; [vm_compute; discriminate | constructor]. }
  exact (pickInput_successor Ref.iCompare st v pre post t eq_refl eq_refl eq_refl
           eq_refl Hkey Hsorted).
Defined.

(** X18, witness: a manifest file of no bytes. *)
Lemma recover_empty_manifest_witness :
  let st := Ref.stateOn (Ref.storageWith []) in
  let run := recover Ref.versionStaging Ref.newStaging Ref.staging_commit
               Ref.staging_finish Ref.journal_NewReader Ref.decode
               Ref.recordCommited in
  Ref.journal_NewReader [] (GetStrict (o (sess st)) StrictManifest) true = []
  /\ run st
     = Done (Some (ErrManifest (errors_New "leveldb: manifest missing comparer name")))
         st.
Proof.
  intros st run. split; [reflexivity|].
  exact (recover_empty_manifest Ref.versionStaging Ref.newStaging
           Ref.staging_commit Ref.staging_finish Ref.journal_NewReader
           Ref.decode Ref.recordCommited st
           {| fileType := TypeManifest; fileNum := 2 |} [] []
           eq_refl eq_refl (or_introl eq_refl)).
Defined.

(** X19, witness: a job at level 1 over a tree whose levels 3 to 6 are
    empty. *)
Lemma isBaseLevelForKey_bottom_witness :
  let v := {| v_tables := [ []; [Ref.fileA]; [Ref.fileP]; []; []; []; [] ];
              cLevel := 1; cScore := Ref.score 2; cSeek := None |} in
  let st := {| sess := Ref.mkSession Ref.emptyStorage Ref.noPointers None;
               vers := [v] |} in
  let key : byteSlice := Some (String.list_byte_of_string "c") in
  0 <= c_level Ref.job1 + 2 <= len (v_tables v)
  /\ isBaseLevelForKey Ref.ukey key Ref.job1 st = Done (true, Ref.job1) st.
Proof.
  intros v st key.
  assert (Hlo : 0 <= c_level Ref.job1 + 2 <= len (v_tables v))
    by (vm_compute; split; discriminate).
  split; [exact Hlo|].
  assert (Hempty : forall lvl lv, c_level Ref.job1 + 2 <= lvl ->
                     index (v_tables v) lvl = Some lv -> lv = []).
  { intros lvl lv Hl Hi. change (c_level Ref.job1 + 2) with 3 in Hl.
    unfold index in Hi. destruct (0 <=? lvl); [|discriminate].
    destruct (Z.to_nat lvl) as [|[|[|[|[|[|[|n]]]]]]] eqn:Hn; simpl in Hi;
      first [congruence | exfalso; lia | rewrite lookup_nil in Hi; discriminate]. }
  assert (Hptrs : forall j, Z.of_nat j < len (v_tables v) - (c_level Ref.job1 + 2) ->
                    exists a, tPtrs Ref.job1 !! j = Some a /\ 0 <= a).
  { intros j Hj. change (len (v_tables v) - (c_level Ref.job1 + 2)) with 4 in Hj.
    destruct j as [|[|[|[|j]]]]; try lia; exists 0; split; (reflexivity || lia). }
  exact (isBaseLevelForKey_bottom Ref.ukey key Ref.job1 st v eq_refl Hlo Hempty Hptrs).
Defined.
